(** * fitness-rl-optimizer: a shallow embedding of the learning controller

    The development follows the Python sources module by module:

    - [random]             the two entry points of Python's [random] that the
                           learners call, over an explicit draw tape;
    - [reward_calculator]  reward_calculator.py;
    - [ucb_selector]       ucb_selector.py (class UCBBandit);
    - [q_learner]          q_learner.py (class QLearningAgent);
    - [fitness_agents]     fitness_agents.py (WorkoutAgent, IntensityAgent,
                           RLController).

    Conventions.
    - Python [float] values are idealised as exact rationals ([Qc], canonical
      fractions with Leibniz equality); Python [int] is [Z].
    - A Python exception is a [Raise e] result; the mutable objects are
      explicit states threaded through a state-and-exception monad in which a
      raised exception keeps the mutations made before it.
    - [defaultdict] is a [gmap] read through [dd_get], which stores the
      default under a missing key exactly as [__missing__] does. *)

From Stdlib Require Import Ascii String QArith Qcanon Field Lqa.
From stdpp Require Import base option numbers list strings gmap fin_maps.

Set Default Proof Using "Type".
Local Open Scope Z_scope.
Local Open Scope Qc_scope.

(** ** Exceptions and the state-and-exception monad *)

Inductive PyErr : Type :=
  | KeyError            (* d[k] on a dict without k *)
  | MaxEmptyError       (* ValueError: max() of an empty iterable *)
  | MathDomainError     (* ValueError: math.log / math.sqrt outside the domain *)
  | ZeroDivisionError
  | IndexError.         (* random.choice of an empty sequence *)

Inductive Result (A : Type) : Type :=
  | Ok (a : A)
  | Raise (e : PyErr).
Arguments Ok {A} a.
Arguments Raise {A} e.

Global Instance Result_ret : MRet Result := λ A, Ok.
Global Instance Result_bind : MBind Result := λ A B f r,
  match r with
  | Ok a => f a
  | Raise e => Raise e
  end.

Definition M (S A : Type) : Type := S → Result A * S.

Definition m_ret {S A} (a : A) : M S A := λ s, (Ok a, s).
Definition m_bind {S A B} (f : A → M S B) (m : M S A) : M S B :=
  λ s, match m s with
       | (Ok a, s') => f a s'
       | (Raise e, s') => (Raise e, s')
       end.
Definition m_raise {S A} (e : PyErr) : M S A := λ s, (Raise e, s).
Definition m_gets {S A} (f : S → A) : M S A := λ s, (Ok (f s), s).
Definition m_modify {S} (f : S → S) : M S unit := λ s, (Ok tt, f s).
Definition m_lift {S A} (r : Result A) : M S A := λ s, (r, s).

(** Run a computation on one component of a larger state. *)
Definition m_zoom {S T A} (get : S → T) (set : T → S → S) (m : M T A) : M S A :=
  λ s, let '(r, t) := m (get s) in (r, set t s).

Global Instance M_ret {S} : MRet (M S) := λ A, m_ret.
Global Instance M_bind {S} : MBind (M S) := λ A B, m_bind.

(** [d[k]] on a [defaultdict(factory)]. *)
Definition dd_get `{Countable K} {V} (dflt : V) (k : K) (d : gmap K V)
    : V * gmap K V :=
  match d !! k with
  | Some v => (v, d)
  | None => (dflt, <[k := dflt]> d)
  end.

(** The value [d[k]] would read, without the store. *)
Definition dd_val `{Countable K} {V} (dflt : V) (d : gmap K V) (k : K) : V :=
  default dflt (d !! k).

(** Decimal literals of the source. *)
Definition dec (n : Z) (d : positive) : Qc := Q2Qc (n # d).

(** [max(xs)] on a list of floats; left-most maximum wins, as in CPython. *)
Definition Qc_max (x y : Qc) : Qc := if decide (x < y) then y else x.

Definition py_max (xs : list Qc) : Result Qc :=
  match xs with
  | [] => Raise MaxEmptyError
  | x :: xs' => Ok (foldl Qc_max x xs')
  end.

(** [sum(xs)] starts from the integer 0. *)
Definition py_sum (xs : list Qc) : Qc := foldl Qcplus 0 xs.

(** ** Python's [random] module *)

Module random.

(** The generator is a tape of draws and a cursor.  [unit_draws] feeds
    [random.random()], [index_draws] feeds [random.choice]. *)
Record Rng : Type := mkRng {
  unit_draws : nat → Qc;
  index_draws : nat → nat;
  cursor : nat
}.

Definition advance (g : Rng) : Rng :=
  mkRng (unit_draws g) (index_draws g) (S (cursor g)).

(** Contract of [random.random()]: a float in [0.0, 1.0). *)
Definition unit_interval (g : Rng) : Prop :=
  ∀ i, 0 ≤ unit_draws g i ∧ unit_draws g i < 1.

Definition random : M Rng Qc :=
  λ g, (Ok (unit_draws g (cursor g)), advance g).

(** [random.choice(seq)]: IndexError on an empty sequence, otherwise
    [seq[k]] for a drawn index [k] below [len(seq)]. *)
Definition choice {A} (seq : list A) : M Rng A :=
  λ g, match seq !! (index_draws g (cursor g) `mod` length seq)%nat with
       | Some a => (Ok a, advance g)
       | None => (Raise IndexError, g)
       end.

End random.

(** ** [str.title()] and [str.lower()], on ASCII text *)

Module pystr.

Definition is_upper (ch : ascii) : bool :=
  let n := nat_of_ascii ch in bool_decide (65 ≤ n ≤ 90)%nat.
Definition is_lower (ch : ascii) : bool :=
  let n := nat_of_ascii ch in bool_decide (97 ≤ n ≤ 122)%nat.
Definition to_upper (ch : ascii) : ascii :=
  if is_lower ch then ascii_of_nat (nat_of_ascii ch - 32) else ch.
Definition to_lower (ch : ascii) : ascii :=
  if is_upper ch then ascii_of_nat (nat_of_ascii ch + 32) else ch.

Fixpoint title_from (prev_cased : bool) (s : string) : string :=
  match s with
  | EmptyString => EmptyString
  | String ch s' =>
      let ch' := if prev_cased then to_lower ch else to_upper ch in
      String ch' (title_from (is_upper ch || is_lower ch) s')
  end.
Definition title (s : string) : string := title_from false s.

Fixpoint lower (s : string) : string :=
  match s with
  | EmptyString => EmptyString
  | String ch s' => String (to_lower ch) (lower s')
  end.

End pystr.

(** ** reward_calculator.py *)

Module reward_calculator.

(** A scenario is a JSON object; each field is [None] when the key is
    absent.  [user_goal] is descriptive only. *)
Record Scenario : Type := mkScenario {
  fitness_level : option string;
  time_available : option Qc;
  best_category : option string;
  good_categories : option (list string);
  bad_categories : option (list string);
  user_goal : option string
}.

(** [scenario[key]] *)
Definition getitem {A} (field : option A) : Result A :=
  match field with
  | Some v => Ok v
  | None => Raise KeyError
  end.

(** [scenario.get(key, [])] *)
Definition get_or_empty (field : option (list string)) : list string :=
  default [] field.

Definition has_required_fields (sc : Scenario) : Prop :=
  is_Some (fitness_level sc) ∧ is_Some (time_available sc)
  ∧ is_Some (best_category sc).

Definition compute_category_reward (scenario : Scenario)
    (chosen_category : string) : Result Qc :=
  best ← getitem (best_category scenario);
  if decide (chosen_category = best) then Ok 1
  else if decide (chosen_category ∈ get_or_empty (good_categories scenario))
  then Ok (dec 5 10)
  else if decide (chosen_category ∈ get_or_empty (bad_categories scenario))
  then Ok (dec (-2) 10)
  else Ok 0.

(** An exercise is the dict built by [WorkoutAgent.select_exercise];
    [adjusted_difficulty] is the key [IntensityAgent.adjust_intensity]
    adds. *)
Record Exercise : Type := mkExercise {
  category : string;
  difficulty : string;
  name : string;
  estimated_time : Z;
  adjusted_difficulty : option string
}.

(** [len(set(xs))] *)
Definition count_unique (xs : list string) : Z :=
  Z.of_nat (size (list_to_set xs : gset string)).

(** The goal-alignment [for] loop: its body is the single assignment
    [category = exercise['category']], so after the loop [category] holds
    the category of the last exercise. *)
Definition last_category (exercises_selected : list Exercise) : option string :=
  foldl (λ _ exercise, Some (category exercise)) None exercises_selected.

Definition compute_workout_quality (exercises_selected : list Exercise)
    (scenario : Scenario) : Result Qc :=
  match exercises_selected with
  | [] => Ok 0
  | _ =>
      let exercise_categories := category <$> exercises_selected in
      let unique_types := count_unique exercise_categories in
      let variety_score := Qc_of_Z unique_types * dec 3 10 in
      let estimated_time := (Z.of_nat (length exercises_selected) * 15)%Z in
      time_available ← getitem (time_available scenario);
      let time_score :=
        if decide (Qc_of_Z estimated_time ≤ time_available)
        then dec 5 10 else dec (-3) 10 in
      let goal_alignment := 0 in
      (* the list is not empty here, so the loop has bound [category] *)
      let category := default ""%string (last_category exercises_selected) in
      best ← getitem (best_category scenario);
      let goal_alignment :=
        if decide (category = best) then goal_alignment + dec 4 10
        else if decide (category ∈ get_or_empty (good_categories scenario))
        then goal_alignment + dec 2 10
        else goal_alignment in
      let total_quality := variety_score + time_score + goal_alignment in
      Ok total_quality
  end.

Definition get_intensity_level (avg_reward : Qc) : string :=
  if decide (dec 7 10 < avg_reward) then "high"
  else if decide (dec 3 10 < avg_reward) then "medium"
  else "low".

Definition get_time_bucket (exercises_count : Z) (time_available : Qc) : string :=
  let estimated_time_used := (exercises_count * 15)%Z in
  let time_remaining := time_available - Qc_of_Z estimated_time_used in
  if decide (Qc_of_Z 30 < time_remaining) then "plenty"
  else if decide (Qc_of_Z 15 < time_remaining) then "medium"
  else "limited".

Definition get_fitness_level_bucket (fitness_level : string) : string :=
  pystr.lower fitness_level.

End reward_calculator.

(** ** ucb_selector.py *)

Module ucb_selector.
Import random.

Record UCBBandit : Type := mkUCBBandit {
  actions : list string;
  c : Qc;
  q_values : gmap string Qc;        (* defaultdict(float) *)
  action_counts : gmap string Z;    (* defaultdict(int) *)
  total_steps : Z
}.

Definition set_q_values (d : gmap string Qc) (b : UCBBandit) : UCBBandit :=
  mkUCBBandit (actions b) (c b) d (action_counts b) (total_steps b).
Definition set_action_counts (d : gmap string Z) (b : UCBBandit) : UCBBandit :=
  mkUCBBandit (actions b) (c b) (q_values b) d (total_steps b).
Definition set_total_steps (n : Z) (b : UCBBandit) : UCBBandit :=
  mkUCBBandit (actions b) (c b) (q_values b) (action_counts b) n.

(** [UCBBandit(actions, c)]; [c] defaults to 2.0. *)
Definition default_c : Qc := 2.
Definition init (actions : list string) (c : Qc) : UCBBandit :=
  mkUCBBandit actions c ∅ ∅ 0.

(** [self.action_counts[action]] and [self.q_values[action]] as reads. *)
Definition read_count (action : string) : M UCBBandit Z :=
  λ b, let '(n, d) := dd_get 0%Z action (action_counts b) in
       (Ok n, set_action_counts d b).
Definition read_q (action : string) : M UCBBandit Qc :=
  λ b, let '(v, d) := dd_get 0 action (q_values b) in
       (Ok v, set_q_values d b).

(** The pull count a read would see. *)
Definition pulls (b : UCBBandit) (action : string) : Z :=
  dd_val 0%Z (action_counts b) action.

(** [ucb_scores[action] = score] on an insertion-ordered dict. *)
Fixpoint dict_set (k : string) (v : Qc) (d : list (string * Qc))
    : list (string * Qc) :=
  match d with
  | [] => [(k, v)]
  | (k', v') :: d' =>
      if decide (k' = k) then (k, v) :: d' else (k', v') :: dict_set k v d'
  end.

Section scoring.
(** [math.sqrt(math.log(t) / n)] is not a rational: the float it yields
    on its domain is a parameter of the development. *)
Variable sqrt_log_ratio : Z → Z → Qc.

(** [self.c * math.sqrt(math.log(self.total_steps) / n_action)] with the
    exceptions of its three operations, in evaluation order. *)
Definition explore_term (c : Qc) (total_steps n_action : Z) : Result Qc :=
  if decide (total_steps ≤ 0)%Z then Raise MathDomainError      (* math.log *)
  else if decide (n_action = 0)%Z then Raise ZeroDivisionError (* / *)
  else if decide (n_action < 0 ∧ 1 < total_steps)%Z
  then Raise MathDomainError                                   (* math.sqrt *)
  else Ok (c * sqrt_log_ratio total_steps n_action).

(** Phase 1: the first action whose count reads 0, if any. *)
Fixpoint cold_start (acts : list string) : M UCBBandit (option string) :=
  match acts with
  | [] => mret None
  | action :: rest =>
      n ← read_count action;
      if decide (n = 0)%Z then mret (Some action) else cold_start rest
  end.

(** Phase 2: the loop filling [ucb_scores]. *)
Fixpoint score_arms (acts : list string) (ucb_scores : list (string * Qc))
    : M UCBBandit (list (string * Qc)) :=
  match acts with
  | [] => mret ucb_scores
  | action :: rest =>
      n_action ← read_count action;
      exploit ← read_q action;
      c ← m_gets c;
      total ← m_gets total_steps;
      explore ← m_lift (explore_term c total n_action);
      score_arms rest (dict_set action (exploit + explore) ucb_scores)
  end.

Definition on_bandit {A} (m : M UCBBandit A) : M (UCBBandit * Rng) A :=
  m_zoom fst (λ b s, (b, s.2)) m.
Definition on_rng {A} (m : M Rng A) : M (UCBBandit * Rng) A :=
  m_zoom snd (λ g s, (s.1, g)) m.

Definition ucb_phase : M (UCBBandit * Rng) string :=
  acts ← on_bandit (m_gets actions);
  ucb_scores ← on_bandit (score_arms acts []);
  max_score ← m_lift (py_max (ucb_scores.*2));
  let best_actions :=
    (filter (λ item, item.2 = max_score) ucb_scores).*1 in
  on_rng (choice best_actions).

Definition select_action : M (UCBBandit * Rng) string :=
  on_bandit (m_modify (λ b, set_total_steps (total_steps b + 1) b));;
  acts ← on_bandit (m_gets actions);
  first_unpulled ← on_bandit (cold_start acts);
  match first_unpulled with
  | Some action => mret action
  | None => ucb_phase
  end.
End scoring.

Definition update (action : string) (reward : Qc) : M UCBBandit unit :=
  count ← read_count action;
  m_modify (λ b, set_action_counts (<[action := (count + 1)%Z]> (action_counts b)) b);;
  n ← read_count action;
  old_q ← read_q action;
  if decide (n = 0)%Z then m_raise ZeroDivisionError
  else m_modify (λ b,
         set_q_values (<[action := old_q + (reward - old_q) / Qc_of_Z n]> (q_values b)) b).

Record ArmStats : Type := mkArmStats { avg_reward : Qc; count : Z }.

Fixpoint collect_stats (acts : list string) (stats : gmap string ArmStats)
    : M UCBBandit (gmap string ArmStats) :=
  match acts with
  | [] => mret stats
  | action :: rest =>
      avg ← read_q action;
      n ← read_count action;
      collect_stats rest (<[action := mkArmStats avg n]> stats)
  end.

Definition get_statistics : M UCBBandit (gmap string ArmStats) :=
  acts ← m_gets actions;
  collect_stats acts ∅.

(** States a bandit object can be in: built by the constructor and then
    driven through its methods only. *)
Inductive reachable (sqrt_log_ratio : Z → Z → Qc) : UCBBandit → Prop :=
  | reach_init acts c : reachable sqrt_log_ratio (init acts c)
  | reach_select b g :
      reachable sqrt_log_ratio b →
      reachable sqrt_log_ratio (select_action sqrt_log_ratio (b, g)).2.1
  | reach_update b action reward :
      reachable sqrt_log_ratio b →
      reachable sqrt_log_ratio (update action reward b).2
  | reach_statistics b :
      reachable sqrt_log_ratio b →
      reachable sqrt_log_ratio (get_statistics b).2.

End ucb_selector.

(** ** q_learner.py *)

Module q_learner.
Import random.

Section agent.
(** Any hashable value can serve as a state. *)
Context `{Countable State}.

Record QLearningAgent : Type := mkQLearningAgent {
  actions : list string;
  alpha : Qc;
  gamma : Qc;
  epsilon : Qc;
  q : gmap (State * string) Qc    (* defaultdict(float) *)
}.

Definition set_q (d : gmap (State * string) Qc) (ag : QLearningAgent)
    : QLearningAgent :=
  mkQLearningAgent (actions ag) (alpha ag) (gamma ag) (epsilon ag) d.

(** [QLearningAgent(actions, alpha=0.1, gamma=0.9, epsilon=0.1)] *)
Definition init (actions : list string) (alpha gamma epsilon : Qc)
    : QLearningAgent :=
  mkQLearningAgent actions alpha gamma epsilon ∅.

(** [self.q[(state, a)]] as a read. *)
Definition read_q (key : State * string) : M QLearningAgent Qc :=
  λ ag, let '(v, d) := dd_get 0 key (q ag) in (Ok v, set_q d ag).

(** The value a read of [self.q[(state, a)]] would see. *)
Definition q_value (ag : QLearningAgent) (state : State) (a : string) : Qc :=
  dd_val 0 (q ag) (state, a).

(** [[self.q[(state, a)] for a in acts]] *)
Fixpoint read_row (state : State) (acts : list string)
    : M QLearningAgent (list Qc) :=
  match acts with
  | [] => mret []
  | a :: rest =>
      v ← read_q (state, a);
      vs ← read_row state rest;
      mret (v :: vs)
  end.

(** [[a for a in acts if self.q[(state, a)] == max_q]] *)
Fixpoint read_best (state : State) (max_q : Qc) (acts : list string)
    : M QLearningAgent (list string) :=
  match acts with
  | [] => mret []
  | a :: rest =>
      v ← read_q (state, a);
      best ← read_best state max_q rest;
      mret (if decide (v = max_q) then a :: best else best)
  end.

Definition on_agent {A} (m : M QLearningAgent A) : M (QLearningAgent * Rng) A :=
  m_zoom fst (λ ag s, (ag, s.2)) m.
Definition on_rng {A} (m : M Rng A) : M (QLearningAgent * Rng) A :=
  m_zoom snd (λ g s, (s.1, g)) m.

Definition select_action (state : State) : M (QLearningAgent * Rng) string :=
  u ← on_rng random;
  eps ← on_agent (m_gets epsilon);
  acts ← on_agent (m_gets actions);
  if decide (u < eps) then on_rng (choice acts)
  else
    q_values ← on_agent (read_row state acts);
    max_q ← m_lift (py_max q_values);
    best_actions ← on_agent (read_best state max_q acts);
    on_rng (choice best_actions).

Definition update (state : State) (action : string) (reward : Qc)
    (next_state : State) : M QLearningAgent unit :=
  acts ← m_gets actions;
  next_qs ← read_row next_state acts;
  max_next_q ← m_lift (py_max next_qs);
  old_q ← read_q (state, action);
  m_modify (λ ag,
    set_q (<[(state, action) :=
               old_q + alpha ag * (reward + gamma ag * max_next_q - old_q)]>
             (q ag)) ag).

Definition get_q_table_size (ag : QLearningAgent) : Z :=
  Z.of_nat (size (q ag)).
End agent.

Global Arguments QLearningAgent State {_ _}.

End q_learner.

(** ** fitness_agents.py *)

Module fitness_agents.
Import random reward_calculator.

Module WorkoutAgent.
Definition categories : list string :=
  ["strength"; "cardio"; "flexibility"; "compound"; "isolation"; "hiit";
   "plyometric"; "yoga"; "low_impact"]%string.

Definition select_exercise (category fitness_level : string) : Exercise :=
  {| category := category;
     difficulty := fitness_level;
     name := pystr.title category +:+ " Exercise";
     estimated_time := 15;
     adjusted_difficulty := None |}.

Definition get_available_categories : list string := categories.
End WorkoutAgent.

Module IntensityAgent.
Definition intensity_levels : list string :=
  ["beginner"; "intermediate"; "advanced"]%string.

Definition adjust_intensity (exercise : Exercise) (target_level : string)
    : Exercise :=
  {| category := category exercise;
     difficulty := difficulty exercise;
     name := name exercise;
     estimated_time := estimated_time exercise;
     adjusted_difficulty := Some target_level |}.

Definition get_intensity_recommendation (fitness_level : string)
    (exercises_count : Z) : string :=
  if decide (4 ≤ exercises_count)%Z then
    let levels : gmap string string :=
      {[ "advanced" := "intermediate"; "intermediate" := "beginner";
         "beginner" := "beginner" ]}%string in
    default fitness_level (levels !! fitness_level)
  else fitness_level.
End IntensityAgent.

Module BaselineController.
(** The dict [run_fixed_pipeline] returns. *)
Record Plan : Type := mkPlan {
  plan_exercises : list Exercise;
  total_time : Z;
  method : string
}.

(** The [for _ in range(n)] loop over the growing list. *)
Fixpoint fixed_exercises (n : nat) (scenario : Scenario)
    (exercises : list Exercise) : Result (list Exercise) :=
  match n with
  | O => Ok exercises
  | S n' =>
      level ← getitem (fitness_level scenario);
      let exercise := WorkoutAgent.select_exercise "strength" level in
      level' ← getitem (fitness_level scenario);
      let exercise := IntensityAgent.adjust_intensity exercise level' in
      fixed_exercises n' scenario (exercises ++ [exercise])
  end.

Definition run_fixed_pipeline (scenario : Scenario) : Result Plan :=
  exercises ← fixed_exercises 3 scenario [];
  Ok {| plan_exercises := exercises;
        total_time := Z.of_nat (length exercises) * 15;
        method := "baseline_fixed" |}.
End BaselineController.

Module RLController.
Import ucb_selector q_learner.

(** The tuple [_get_state] returns. *)
Definition State : Type := Z * string * string * string.

(** The objects an episode mutates: the two learners the controller
    holds and the process-wide random generator. *)
Record World : Type := mkWorld {
  bandit : UCBBandit;
  q_agent : QLearningAgent State;
  rng : Rng
}.

Definition on_bandit {A} (m : M UCBBandit A) : M World A :=
  m_zoom bandit (λ b w, mkWorld b (q_agent w) (rng w)) m.
Definition on_q_agent {A} (m : M (QLearningAgent State) A) : M World A :=
  m_zoom q_agent (λ ag w, mkWorld (bandit w) ag (rng w)) m.
Definition on_q_agent_rng {A} (m : M (QLearningAgent State * Rng) A)
    : M World A :=
  m_zoom (λ w, (q_agent w, rng w)) (λ s w, mkWorld (bandit w) s.1 s.2) m.

(** [self.actions] *)
Definition actions : list string :=
  ["add_strength"; "add_cardio"; "add_flexibility"; "finalize"]%string.

Definition _get_state (exercises : list Exercise)
    (exercise_rewards : list Qc) (scenario : Scenario) : Result State :=
  let exercise_count := Z.of_nat (length exercises) in
  let count_bucket :=
    if decide (3 ≤ exercise_count)%Z then 3%Z else exercise_count in
  let avg_reward :=
    match exercise_rewards with
    | [] => 0
    | _ => py_sum exercise_rewards
           / Qc_of_Z (Z.of_nat (length exercise_rewards))
    end in
  let intensity := get_intensity_level avg_reward in
  time_available ← getitem (time_available scenario);
  let time_status := get_time_bucket exercise_count time_available in
  fitness_level ← getitem (fitness_level scenario);
  let fitness := get_fitness_level_bucket fitness_level in
  Ok (count_bucket, intensity, time_status, fitness).

Definition _map_action_to_category (action : string) : option string :=
  let action_to_category : gmap string string :=
    {[ "add_strength" := "strength"; "add_cardio" := "cardio";
       "add_flexibility" := "flexibility" ]}%string in
  action_to_category !! action.

(** Truth value of [category] in [if category:]. *)
Definition truthy (category : option string) : option string :=
  match category with
  | Some EmptyString => None
  | other => other
  end.

(** The local variables of [run_episode] that live across iterations.
    [step_reward] is unbound until the first iteration assigns it. *)
Record Locals : Type := mkLocals {
  exercises : list Exercise;
  exercise_rewards : list Qc;
  done : bool;
  state : State;
  total_reward : Qc;
  total_exercises : Z;
  step_reward : option Qc
}.

Definition max_exercises : Z := 6.

Section episode.
Variable scenario : Scenario.
Variable reward_fn : Scenario → string → Result Qc.

(** [if action == "finalize":] branch; yields [step_reward]. *)
Definition finalize_branch (l : Locals) : Result (Qc * Locals) :=
  step ←
    match exercises l with
    | _ :: _ => compute_workout_quality (exercises l) scenario
    | [] => Ok (- 1)
    end;
  Ok (step,
      mkLocals (exercises l) (exercise_rewards l) true (state l)
               (total_reward l) (total_exercises l) (step_reward l)).

(** [else:] branch; yields [step_reward]. *)
Definition add_branch (action : string) (l : Locals)
    : M World (Qc * Locals) :=
  match truthy (_map_action_to_category action) with
  | Some category =>
      level ← m_lift (getitem (fitness_level scenario));
      let exercise := WorkoutAgent.select_exercise category level in
      level' ← m_lift (getitem (fitness_level scenario));
      let exercise :=
        IntensityAgent.adjust_intensity exercise
          (IntensityAgent.get_intensity_recommendation level'
             (Z.of_nat (length (exercises l)))) in
      category_reward ← m_lift (reward_fn scenario category);
      on_bandit (ucb_selector.update category category_reward);;
      mret (category_reward - dec 5 100,
            mkLocals (exercises l ++ [exercise])
                     (exercise_rewards l ++ [category_reward])
                     (done l) (state l) (total_reward l)
                     (total_exercises l + 1)%Z (step_reward l))
  | None => mret (- dec 1 10, l)
  end.

(** One iteration of the [while] loop. *)
Definition loop_body (l : Locals) : M World Locals :=
  action ← on_q_agent_rng (q_learner.select_action (state l));
  '(step, l) ←
    (if decide (action = "finalize"%string)
     then m_lift (finalize_branch l)
     else add_branch action l);
  let total := total_reward l + step in
  next_state ←
    m_lift (_get_state (exercises l) (exercise_rewards l) scenario);
  on_q_agent (q_learner.update (state l) action step next_state);;
  mret (mkLocals (exercises l) (exercise_rewards l) (done l) next_state
                 total (total_exercises l) (Some step)).

Definition loop_condition (l : Locals) : bool :=
  negb (done l) && bool_decide (total_exercises l < max_exercises)%Z.

(** The [while] loop, cut off after [fuel] iterations: [None] means the
    loop was still running when the fuel ran out; an exception ends the
    loop at once. *)
Fixpoint episode_loop (fuel : nat) (l : Locals) (w : World)
    : option (Result Locals * World) :=
  if loop_condition l then
    match fuel with
    | O => None
    | S fuel' =>
        match loop_body l w with
        | (Ok l', w') => episode_loop fuel' l' w'
        | (Raise e, w') => Some (Raise e, w')
        end
    end
  else Some (Ok l, w).

Definition initial_locals (state : State) : Locals :=
  mkLocals [] [] false state 0 0 None.

Definition run_episode (fuel : nat) (w : World)
    : option (Result (Qc * Z) * World) :=
  match _get_state [] [] scenario with
  | Raise e => Some (Raise e, w)
  | Ok state =>
      match episode_loop fuel (initial_locals state) w with
      | None => None
      | Some (Ok l, w') => Some (Ok (total_reward l, total_exercises l), w')
      | Some (Raise e, w') => Some (Raise e, w')
      end
  end.
End episode.
End RLController.

End fitness_agents.

(** ** Definitions used to state the properties *)

Module documented.
Import reward_calculator.

(** The workout-quality score as the specification words it: the
    goal-alignment bonus accumulates over every exercise. *)
Definition goal_alignment_bonus (best : string) (good : list string)
    (categories : list string) : Qc :=
  foldl (λ bonus category,
           if decide (category = best) then bonus + dec 4 10
           else if decide (category ∈ good) then bonus + dec 2 10
           else bonus) 0 categories.

Definition workout_quality (exercises : list Exercise) (scenario : Scenario)
    : Result Qc :=
  time_available ← getitem (time_available scenario);
  best ← getitem (best_category scenario);
  let categories := category <$> exercises in
  Ok (dec 3 10 * Qc_of_Z (count_unique categories)
      + (if decide (Qc_of_Z (Z.of_nat (length exercises) * 15) ≤ time_available)
         then dec 5 10 else - dec 3 10)
      + goal_alignment_bonus best (get_or_empty (good_categories scenario))
          categories).
End documented.

(** [update(arm, r_1); ...; update(arm, r_n)] *)
Fixpoint update_each (arm : string) (rewards : list Qc)
    : M ucb_selector.UCBBandit unit :=
  match rewards with
  | [] => mret tt
  | r :: rest => ucb_selector.update arm r;; update_each arm rest
  end.

(** Arithmetic mean of a non-empty list. *)
Definition sum_list_Qc (xs : list Qc) : Qc := foldr Qcplus 0 xs.
Definition mean (xs : list Qc) : Qc :=
  sum_list_Qc xs / Qc_of_Z (Z.of_nat (length xs)).

(** Sample data: the scenario of the specification's examples. *)
Module sample.
Import reward_calculator.

Definition scenario : Scenario :=
  {| fitness_level := Some "intermediate"%string;
     time_available := Some (Qc_of_Z 60);
     best_category := Some "strength"%string;
     good_categories := Some ["compound"%string];
     bad_categories := Some ["yoga"%string];
     user_goal := None |}.

(** A scenario whose best category is also listed as good and as bad, and
    whose good category is also listed as bad. *)
Definition overlapping : Scenario :=
  {| fitness_level := Some "beginner"%string;
     time_available := Some (Qc_of_Z 30);
     best_category := Some "cardio"%string;
     good_categories := Some ["cardio"; "hiit"]%string;
     bad_categories := Some ["hiit"; "cardio"]%string;
     user_goal := None |}.

(** Only the required keys. *)
Definition minimal : Scenario :=
  {| fitness_level := Some "advanced"%string;
     time_available := Some (Qc_of_Z 45);
     best_category := Some "strength"%string;
     good_categories := None;
     bad_categories := None;
     user_goal := None |}.

Definition strength : Exercise :=
  fitness_agents.WorkoutAgent.select_exercise "strength" "intermediate".
End sample.

(** Bandit-side notions. *)
Module bandit_facts.
Import ucb_selector.

(** [select_action] with the counter incremented, as Phase 1 finds it. *)
Definition stepped (b : UCBBandit) : UCBBandit :=
  set_total_steps (total_steps b + 1) b.

(** Phase 1 finds no unpulled arm: the call goes on to the UCB formula. *)
Definition reaches_scoring (b : UCBBandit) : Prop :=
  (cold_start (actions b) (stepped b)).1 = Ok None.

(** Two states that every read tells apart in no way: they differ at most
    in which default entries the dictionaries have materialised. *)
Record same_view (b b' : UCBBandit) : Prop := mk_same_view {
  view_actions : actions b' = actions b;
  view_c : c b' = c b;
  view_total : total_steps b' = total_steps b;
  view_pulls : ∀ a, pulls b' a = pulls b a;
  view_q : ∀ a, dd_val 0 (q_values b') a = dd_val 0 (q_values b) a
}.

(** Counters never go below zero. *)
Definition counters_nonneg (b : UCBBandit) : Prop :=
  (0 ≤ total_steps b)%Z ∧ ∀ a, (0 ≤ pulls b a)%Z.
End bandit_facts.

(** Q-table notions. *)
Module q_facts.
Import q_learner.

Section materialize.
Context `{Countable State}.

(** The table after the reads [self.q[(state, a)]] for [a] in [acts]:
    every missing key of the row now holds 0.0. *)
Fixpoint materialize (state : State) (acts : list string)
    (d : gmap (State * string) Qc) : gmap (State * string) Qc :=
  match acts with
  | [] => d
  | a :: rest =>
      materialize state rest (<[(state, a) := dd_val 0 d (state, a)]> d)
  end.

(** The keys of the row of [state]. *)
Definition row_keys (state : State) (acts : list string)
    : gset (State * string) :=
  list_to_set ((λ a, (state, a)) <$> acts).

(** The maximisers of the row of [state], in the order of [acts]. *)
Definition maximisers (ag : QLearningAgent State) (state : State)
    (max_q : Qc) (acts : list string) : list string :=
  filter (λ a, q_value ag state a = max_q) acts.
End materialize.
End q_facts.

(** Episode-side notions. *)
Module episode_facts.
Import reward_calculator fitness_agents.RLController.

(** The Q-agent was built over the controller's four actions (or some of
    them), so [select_action] can return nothing else. *)
Definition declared_actions_only (w : World) : Prop :=
  Forall (λ a, a ∈ actions) (q_learner.actions (q_agent w)).

(** Nothing an episode calls can raise: the scenario has its required
    keys, the reward function is defined on the three reachable
    categories, the agent has an action to choose and the bandit's
    counters are not negative. *)
Definition ready (scenario : Scenario)
    (reward_fn : Scenario → string → Result Qc) (w : World) : Prop :=
  has_required_fields scenario
  ∧ (∀ category, category ∈ ["strength"; "cardio"; "flexibility"]%string →
       ∃ r, reward_fn scenario category = Ok r)
  ∧ q_learner.actions (q_agent w) ≠ []
  ∧ (∀ a, (0 ≤ ucb_selector.pulls (bandit w) a)%Z).

(** [total_exercises] counts the entries of [exercises]. *)
Definition counts_match (l : Locals) : Prop :=
  Z.of_nat (length (exercises l)) = total_exercises l.

(** The exercise an [add_*] step appends. *)
Definition added_exercise (category level : string) (l : Locals) : Exercise :=
  fitness_agents.IntensityAgent.adjust_intensity
    (fitness_agents.WorkoutAgent.select_exercise category level)
    (fitness_agents.IntensityAgent.get_intensity_recommendation level
       (Z.of_nat (length (exercises l)))).

(** The [if action == "finalize": ... else: ...] of the loop body: the
    step reward and the locals it leaves. *)
Definition branch (scenario : Scenario)
    (reward_fn : Scenario → string → Result Qc)
    (action : string) (l : Locals) : M World (Qc * Locals) :=
  if decide (action = "finalize"%string)
  then m_lift (finalize_branch scenario l)
  else add_branch scenario reward_fn action l.

(** A world in which the greedy agent prefers to finalize at once. *)
Definition finalizing_world : World :=
  mkWorld
    (ucb_selector.init fitness_agents.WorkoutAgent.categories 2)
    (q_learner.mkQLearningAgent actions (dec 1 10) (dec 9 10) 0
       {[ ((0%Z, "low", "plenty", "intermediate")%string, "finalize"%string)
          := dec 1 2 ]})
    (random.mkRng (λ _, dec 1 2) (λ n, n) 0).

(** A fresh world as [train_rl.main] builds it, with a fixed tape. *)
Definition fresh_world : World :=
  mkWorld
    (ucb_selector.init fitness_agents.WorkoutAgent.categories 2)
    (q_learner.init actions (dec 1 10) (dec 9 10) (dec 1 10))
    (random.mkRng (λ _, dec 1 2) (λ n, n) 0).
End episode_facts.

(** The locals an iteration that finalizes leaves behind. *)
Definition finalized (l : fitness_agents.RLController.Locals)
    (next_state : fitness_agents.RLController.State) (step : Qc)
    : fitness_agents.RLController.Locals :=
  fitness_agents.RLController.mkLocals
    (fitness_agents.RLController.exercises l)
    (fitness_agents.RLController.exercise_rewards l)
    true next_state
    (fitness_agents.RLController.total_reward l + step)
    (fitness_agents.RLController.total_exercises l)
    (Some step).

(** Orderings of the state buckets, for monotonicity statements. *)
Module buckets.
(** low < medium < high *)
Definition intensity_rank (level : string) : nat :=
  if decide (level = "high"%string) then 2%nat
  else if decide (level = "medium"%string) then 1%nat else 0%nat.

(** limited < medium < plenty *)
Definition time_rank (bucket : string) : nat :=
  if decide (bucket = "plenty"%string) then 2%nat
  else if decide (bucket = "medium"%string) then 1%nat else 0%nat.

(** beginner < intermediate < advanced; other strings are not ranked. *)
Definition fitness_rank (level : string) : option nat :=
  if decide (level = "beginner"%string) then Some 0%nat
  else if decide (level = "intermediate"%string) then Some 1%nat
  else if decide (level = "advanced"%string) then Some 2%nat
  else None.
End buckets.

(** Bandit histories and scores. *)
Module bandit_runs.
Import random ucb_selector.

(** [update(arm_1, r_1); ...; update(arm_n, r_n)] *)
Fixpoint update_history (history : list (string * Qc)) : M UCBBandit unit :=
  match history with
  | [] => mret tt
  | (arm, r) :: rest => update arm r;; update_history rest
  end.

(** The rewards a history gave to one arm, in order. *)
Definition rewards_of (arm : string) (history : list (string * Qc))
    : list Qc :=
  (filter (λ p, p.1 = arm) history).*2.

(** The UCB score of an arm as the scoring phase of a call computes it:
    [total_steps] has been incremented. *)
Definition ucb_score (sqrt_log_ratio : Z → Z → Qc) (b : UCBBandit)
    (arm : string) : Qc :=
  dd_val 0 (q_values b) arm
  + c b * sqrt_log_ratio (total_steps b + 1)%Z (pulls b arm).

(** The score the loop of Phase 2 stores for an arm, read in the state
    the loop runs in (the counter already incremented). *)
Definition stored_score (sqrt_log_ratio : Z → Z → Qc) (b : UCBBandit)
    (arm : string) : Qc :=
  dd_val 0 (q_values b) arm
  + c b * sqrt_log_ratio (total_steps b) (pulls b arm).

(** The per-arm invariant of a history of updates: the count is the
    number of rewards the arm received, and the stored average times the
    count is their sum. *)
Definition tracks (b : UCBBandit) (h : list (string * Qc)) : Prop :=
  ∀ arm,
    pulls b arm = Z.of_nat (length (rewards_of arm h))
    ∧ dd_val 0 (q_values b) arm * Qc_of_Z (pulls b arm)
      = sum_list_Qc (rewards_of arm h).

(** [n] rounds of: select an arm, observe its reward, update. *)
Fixpoint pull_rounds (sqrt_log_ratio : Z → Z → Qc) (reward : string → Qc)
    (n : nat) : M (UCBBandit * Rng) (list string) :=
  match n with
  | O => mret []
  | S n' =>
      arm ← select_action sqrt_log_ratio;
      on_bandit (update arm (reward arm));;
      rest ← pull_rounds sqrt_log_ratio reward n';
      mret (arm :: rest)
  end.
End bandit_runs.

(** Notions for the effect of an episode on the learners. *)
Module episode_effects.
Import fitness_agents.RLController.

(** The categories an action can map to. *)
Definition reachable_categories : list string :=
  ["strength"; "cardio"; "flexibility"]%string.

(** Pulls recorded for the three reachable categories together. *)
Definition reachable_pulls (b : ucb_selector.UCBBandit) : Z :=
  (ucb_selector.pulls b "strength" + ucb_selector.pulls b "cardio"
   + ucb_selector.pulls b "flexibility")%Z.

(** What an episode may change in the bandit between two states: the
    counter of selections not at all, the statistics of the three
    reachable categories only, with one pull per exercise added. *)
Definition bandit_step (b b' : ucb_selector.UCBBandit) (added : Z) : Prop :=
  ucb_selector.total_steps b' = ucb_selector.total_steps b
  ∧ ucb_selector.actions b' = ucb_selector.actions b
  ∧ (∀ a, a ∉ reachable_categories →
       ucb_selector.pulls b' a = ucb_selector.pulls b a
       ∧ dd_val 0 (ucb_selector.q_values b') a
         = dd_val 0 (ucb_selector.q_values b) a)
  ∧ (reachable_pulls b' = reachable_pulls b + added)%Z.

(** The [i]-th entry of a plan and its reward are what an [add_*] step
    taken with [i] exercises already planned produces. *)
Definition plan_entry_ok (scenario : reward_calculator.Scenario)
    (reward_fn : reward_calculator.Scenario → string → Result Qc)
    (i : nat) (e : reward_calculator.Exercise) (r : Qc) : Prop :=
  ∃ level,
    reward_calculator.fitness_level scenario = Some level
    ∧ reward_calculator.category e ∈ reachable_categories
    ∧ e = fitness_agents.IntensityAgent.adjust_intensity
            (fitness_agents.WorkoutAgent.select_exercise
               (reward_calculator.category e) level)
            (fitness_agents.IntensityAgent.get_intensity_recommendation
               level (Z.of_nat i))
    ∧ reward_fn scenario (reward_calculator.category e) = Ok r.

Definition plan_ok (scenario : reward_calculator.Scenario)
    (reward_fn : reward_calculator.Scenario → string → Result Qc)
    (l : Locals) : Prop :=
  length (exercise_rewards l) = length (exercises l)
  ∧ ∀ i e, exercises l !! i = Some e →
      ∃ r, exercise_rewards l !! i = Some r
           ∧ plan_entry_ok scenario reward_fn i e r.

(** An agent none of whose actions is [finalize] or maps to a category. *)
Definition undeclared_actions_only (w : World) : Prop :=
  Forall (λ a, a ≠ "finalize"%string
               ∧ truthy (_map_action_to_category a) = None)
    (q_learner.actions (q_agent w)).

(** An agent that can only add exercises. *)
Definition add_actions_only (w : World) : Prop :=
  Forall (λ a, a ∈ ["add_strength"; "add_cardio"; "add_flexibility"]%string)
    (q_learner.actions (q_agent w)).

(** A world whose agent knows a single action outside the declared set. *)
Definition resting_world : World :=
  mkWorld
    (ucb_selector.init fitness_agents.WorkoutAgent.categories 2)
    (q_learner.init ["rest"%string] (dec 1 10) (dec 9 10) (dec 1 10))
    (random.mkRng (λ _, dec 1 2) (λ n, n) 0).

(** A world whose agent can only add cardio or strength exercises. *)
Definition adding_world : World :=
  mkWorld
    (ucb_selector.init fitness_agents.WorkoutAgent.categories 2)
    (q_learner.init ["add_cardio"; "add_strength"]%string
       (dec 1 10) (dec 9 10) (dec 1 10))
    (random.mkRng (λ _, dec 1 2) (λ n, n) 0).
End episode_effects.

(** * Properties *)

(** ** Shared facts: rationals, defaultdict reads, the monad *)

(** Closed equalities between rationals are decided on the fractions. *)
Ltac qc_eq :=
  vm_compute;
  lazymatch goal with
  | |- Ok _ = Ok _ => apply (f_equal Ok)
  | |- Some _ = Some _ => apply (f_equal Some)
  | _ => idtac
  end;
  apply Qc_is_canon; vm_compute; reflexivity.

Ltac unfold_monad :=
  unfold mbind, mret, M_bind, M_ret, Result_bind, Result_ret,
    m_bind, m_ret, m_raise, m_gets, m_modify, m_lift, m_zoom in *.

Section defaultdict.
Context `{Countable K} {V : Type} (dflt : V).
Implicit Types (d : gmap K V) (k : K).

Lemma dd_get_value d k : (dd_get dflt k d).1 = dd_val dflt d k.
Proof. unfold dd_get, dd_val. by destruct (d !! k). Qed.

Lemma dd_get_store d k :
  (dd_get dflt k d).2 = <[k := dd_val dflt d k]> d.
Proof.
  unfold dd_get, dd_val. destruct (d !! k) eqn:E; simpl; [|done].
  by rewrite insert_id.
Qed.

Lemma dd_get_eq d k :
  dd_get dflt k d = (dd_val dflt d k, <[k := dd_val dflt d k]> d).
Proof.
  rewrite (surjective_pairing (dd_get dflt k d)).
  by rewrite dd_get_value, dd_get_store.
Qed.

Lemma dd_val_insert d k v k' :
  dd_val dflt (<[k := v]> d) k' = if decide (k = k') then v else dd_val dflt d k'.
Proof.
  unfold dd_val. rewrite lookup_insert. by destruct (decide (k = k')).
Qed.

(** A read never changes what later reads see. *)
Lemma dd_val_read d k k' :
  dd_val dflt (<[k := dd_val dflt d k]> d) k' = dd_val dflt d k'.
Proof. rewrite dd_val_insert. destruct (decide (k = k')); by subst. Qed.

Lemma dd_val_lookup d k v : d !! k = Some v → dd_val dflt d k = v.
Proof. unfold dd_val. by intros ->. Qed.
End defaultdict.

Lemma Qc_max_ge_l (x y : Qc) : x ≤ Qc_max x y.
Proof.
  unfold Qc_max. destruct (decide (x < y)); [by apply Qclt_le_weak | done].
Qed.

Lemma Qc_max_ge_r (x y : Qc) : y ≤ Qc_max x y.
Proof.
  unfold Qc_max. destruct (decide (x < y)) as [|Hn]; [done|].
  by apply Qcnot_lt_le.
Qed.

Lemma Qc_max_cases (x y : Qc) : Qc_max x y = x ∨ Qc_max x y = y.
Proof. unfold Qc_max. destruct (decide (x < y)); auto. Qed.

Lemma foldl_Qc_max_ge (xs : list Qc) (x : Qc) :
  x ≤ foldl Qc_max x xs ∧ ∀ y, y ∈ xs → y ≤ foldl Qc_max x xs.
Proof.
  revert x. induction xs as [|z xs IH]; intros x; simpl.
  - split; [done|]. intros y Hy. by apply elem_of_nil in Hy.
  - destruct (IH (Qc_max x z)) as [H1 H2]. split.
    + etrans; [apply Qc_max_ge_l | exact H1].
    + intros y [->|Hy]%elem_of_cons; [|by apply H2].
      etrans; [apply Qc_max_ge_r | exact H1].
Qed.

Lemma foldl_Qc_max_elem (xs : list Qc) (x : Qc) :
  foldl Qc_max x xs ∈ x :: xs.
Proof.
  revert x. induction xs as [|z xs IH]; intros x; simpl.
  - apply list_elem_of_here.
  - specialize (IH (Qc_max x z)).
    apply elem_of_cons in IH as [IH|IH].
    + destruct (Qc_max_cases x z) as [E|E]; rewrite IH, E.
      * apply list_elem_of_here.
      * apply list_elem_of_further, list_elem_of_here.
    + by do 2 apply list_elem_of_further.
Qed.

(** [max] returns an element of the list that bounds all the others. *)
Lemma py_max_spec (xs : list Qc) (m : Qc) :
  py_max xs = Ok m → m ∈ xs ∧ ∀ y, y ∈ xs → y ≤ m.
Proof.
  destruct xs as [|x xs]; simpl; [done|]. intros [= <-]. split.
  - apply foldl_Qc_max_elem.
  - destruct (foldl_Qc_max_ge xs x) as [H1 H2].
    intros y [->|Hy]%elem_of_cons; auto.
Qed.

Lemma py_max_nonempty (xs : list Qc) : xs ≠ [] → ∃ m, py_max xs = Ok m.
Proof. destruct xs; [done|]. eauto. Qed.

Section random_choice.
Import random.

Lemma choice_elem {A} (seq : list A) (g g' : Rng) (a : A) :
  choice seq g = (Ok a, g') → a ∈ seq.
Proof.
  unfold choice. destruct (seq !! _) as [x|] eqn:E; [|done].
  intros [= <- _]. by eapply list_elem_of_lookup_2.
Qed.

(** On a non-empty sequence [random.choice] returns one of its elements
    and uses one draw. *)
Lemma choice_defined {A} (seq : list A) (g : Rng) :
  seq ≠ [] → ∃ a, choice seq g = (Ok a, advance g) ∧ a ∈ seq.
Proof.
  intros Hne. unfold choice.
  destruct (lookup_lt_is_Some_2 seq (index_draws g (cursor g) `mod` length seq))
    as [a Ha].
  { apply Nat.mod_upper_bound. by destruct seq. }
  rewrite Ha. exists a. split; [done|]. by eapply list_elem_of_lookup_2.
Qed.
End random_choice.

(** Order facts on [Qc] are decided on the underlying fractions. *)
Lemma Qc_this_plus (x y : Qc) : (this (x + y) == this x + this y)%Q.
Proof. unfold Qcplus. simpl. apply Qred_correct. Qed.

Lemma Qc_this_minus (x y : Qc) : (this (x - y) == this x - this y)%Q.
Proof.
  unfold Qcminus, Qcplus, Qcopp. simpl. rewrite !Qred_correct. reflexivity.
Qed.

Lemma Qc_this_mult (x y : Qc) : (this (x * y) == this x * this y)%Q.
Proof. unfold Qcmult. simpl. apply Qred_correct. Qed.

Lemma Qc_this_opp (x : Qc) : (this (- x) == - this x)%Q.
Proof. unfold Qcopp. simpl. apply Qred_correct. Qed.

Lemma Qc_this_Q2Qc (q : Q) : (this (Q2Qc q) == q)%Q.
Proof. simpl. apply Qred_correct. Qed.

Lemma Qc_this_of_Z (n : Z) : this (Qc_of_Z n) = inject_Z n.
Proof. reflexivity. Qed.

Lemma Qc_eq_this (x y : Qc) : x = y → (this x == this y)%Q.
Proof. intros ->. reflexivity. Qed.

Ltac qc_to_q :=
  unfold dec in *;
  repeat match goal with
  | H : @eq Qc _ _ |- _ => apply Qc_eq_this in H
  end;
  unfold Qcle, Qclt in *;
  repeat (rewrite ?Qc_this_plus, ?Qc_this_minus, ?Qc_this_mult, ?Qc_this_opp,
            ?Qc_this_Q2Qc, ?Qc_this_of_Z in * ).

(** Injected integers become atoms of the linear problem. *)
Ltac q_atoms :=
  repeat match goal with
  | |- context [inject_Z ?z] =>
      let q := fresh "q" in set (q := inject_Z z) in *; clearbody q
  | H : context [inject_Z ?z] |- _ =>
      let q := fresh "q" in set (q := inject_Z z) in *; clearbody q
  end.

Ltac qc_lra := qc_to_q; lra.

(** ** reward_calculator: category reward and workout quality *)

Section reward_properties.
Import reward_calculator.

Lemma compute_category_reward_total (scenario : Scenario) (best chosen : string) :
  best_category scenario = Some best →
  ∃ r, compute_category_reward scenario chosen = Ok r.
Proof.
  intros Hb. unfold compute_category_reward. rewrite Hb. simpl.
  repeat case_decide; eauto.
Qed.
End reward_properties.

(** C10: [compute_category_reward] tests best, then good, then bad.  With
    [best_category] present: a category equal to it scores 1.0 whatever the
    two lists hold; a category that is not the best but is listed as good
    scores 0.5 even if it is also listed as bad; the call never raises, and
    a missing [good_categories] or [bad_categories] key behaves as an empty
    list. *)
Theorem compute_category_reward_priority
    (scenario : reward_calculator.Scenario) (best chosen : string) :
  reward_calculator.best_category scenario = Some best →
  (chosen = best →
     reward_calculator.compute_category_reward scenario chosen = Ok 1)
  ∧ (chosen ≠ best →
     chosen ∈ default [] (reward_calculator.good_categories scenario) →
     reward_calculator.compute_category_reward scenario chosen = Ok (dec 5 10))
  ∧ (∃ r, reward_calculator.compute_category_reward scenario chosen = Ok r)
  ∧ (chosen ≠ best →
     reward_calculator.good_categories scenario = None →
     reward_calculator.compute_category_reward scenario chosen =
       if decide (chosen ∈ default [] (reward_calculator.bad_categories scenario))
       then Ok (dec (-2) 10) else Ok 0)
  ∧ (chosen ≠ best →
     chosen ∉ default [] (reward_calculator.good_categories scenario) →
     reward_calculator.bad_categories scenario = None →
     reward_calculator.compute_category_reward scenario chosen = Ok 0).
Proof.
  intros Hb. unfold reward_calculator.compute_category_reward.
  rewrite Hb. simpl. unfold reward_calculator.get_or_empty.
  repeat split.
  - intros ->. by rewrite decide_True.
  - intros Hne Hgood. by rewrite decide_False, decide_True.
  - repeat case_decide; eauto.
  - intros Hne ->. simpl. rewrite decide_False by done.
    destruct (decide (chosen ∈ [])) as [Hin|_]; [|done].
    by apply elem_of_nil in Hin.
  - intros Hne Hgood ->. simpl. rewrite !decide_False; try done.
Qed.

Lemma compute_category_reward_priority_witness :
  reward_calculator.best_category sample.overlapping = Some "cardio"%string
  ∧ reward_calculator.compute_category_reward sample.overlapping "cardio" = Ok 1
  ∧ reward_calculator.compute_category_reward sample.overlapping "hiit"
    = Ok (dec 5 10).
Proof.
  split; [reflexivity|]. split.
  - apply (compute_category_reward_priority sample.overlapping "cardio" "cardio");
      reflexivity.
  - apply (compute_category_reward_priority sample.overlapping "cardio" "hiit").
    + reflexivity.
    + discriminate.
    + vm_compute. apply list_elem_of_further, list_elem_of_here.
Defined.

(** On the sample scenario the four rewards of the specification. *)
Example compute_category_reward_sample :
  reward_calculator.compute_category_reward sample.scenario "strength" = Ok 1
  ∧ reward_calculator.compute_category_reward sample.scenario "compound" = Ok (dec 5 10)
  ∧ reward_calculator.compute_category_reward sample.scenario "yoga" = Ok (dec (-2) 10)
  ∧ reward_calculator.compute_category_reward sample.scenario "hiit" = Ok 0.
Proof. repeat split; qc_eq. Qed.

Section quality_properties.
Import reward_calculator.

Lemma last_category_snoc (exercises : list Exercise) (e : Exercise) :
  last_category (exercises ++ [e]) = Some (category e).
Proof. unfold last_category. by rewrite foldl_app. Qed.

(** What the code computes: the bonus is decided by the last exercise
    alone. *)
Lemma compute_workout_quality_last (exercises : list Exercise) (e : Exercise)
    (scenario : Scenario) (available : Qc) (best : string) :
  time_available scenario = Some available →
  best_category scenario = Some best →
  compute_workout_quality (exercises ++ [e]) scenario =
    Ok (Qc_of_Z (count_unique (category <$> exercises ++ [e])) * dec 3 10
        + (if decide (Qc_of_Z (Z.of_nat (length (exercises ++ [e])) * 15)
                      ≤ available)
           then dec 5 10 else dec (-3) 10)
        + (if decide (category e = best) then 0 + dec 4 10
           else if decide (category e ∈ get_or_empty (good_categories scenario))
           then 0 + dec 2 10 else 0)).
Proof.
  intros Ht Hb. unfold compute_workout_quality.
  destruct (exercises ++ [e]) as [|x xs] eqn:E.
  { by destruct exercises. }
  rewrite <-E, Ht, Hb, last_category_snoc. simpl. done.
Qed.
End quality_properties.

(** C1: two strength exercises for a user whose best category is strength.
    The code scores 0.3 + 0.5 + 0.4 = 1.2, counting the goal-alignment bonus
    once, for the last exercise; the documented per-exercise accumulation
    gives 0.3 + 0.5 + 0.4 + 0.4 = 1.6. *)
Theorem compute_workout_quality_counts_last_exercise_only :
  reward_calculator.compute_workout_quality
    [sample.strength; sample.strength] sample.scenario = Ok (dec 12 10)
  ∧ documented.workout_quality
    [sample.strength; sample.strength] sample.scenario = Ok (dec 16 10).
Proof. split; qc_eq. Qed.

(** ** ucb_selector: the incremental mean *)

Section bandit_update.
Import ucb_selector.

(** [update] in closed form. *)
Lemma update_eq (action : string) (reward : Qc) (b : UCBBandit) :
  update action reward b =
    let n := (pulls b action + 1)%Z in
    let old_q := dd_val 0 (q_values b) action in
    let counts := <[action := n]> (action_counts b) in
    if decide (n = 0)%Z
    then (Raise ZeroDivisionError,
          mkUCBBandit (actions b) (c b) (<[action := old_q]> (q_values b))
                      counts (total_steps b))
    else (Ok tt,
          mkUCBBandit (actions b) (c b)
            (<[action := old_q + (reward - old_q) / Qc_of_Z n]> (q_values b))
            counts (total_steps b)).
Proof.
  unfold update, read_count, read_q, pulls. unfold_monad.
  rewrite dd_get_eq. simpl. rewrite insert_insert_eq.
  rewrite dd_get_eq. simpl. rewrite dd_val_insert, decide_True by done.
  rewrite insert_insert_eq, dd_get_eq. simpl.
  destruct (decide _); simpl; [done|].
  unfold set_q_values, set_action_counts. simpl.
  by rewrite insert_insert_eq.
Qed.
End bandit_update.

Section incremental_mean.
Import ucb_selector.

Lemma Qc_of_Z_succ_nonzero (n : Z) : (0 ≤ n)%Z → Qc_of_Z (n + 1) ≠ 0.
Proof.
  intros Hn E. rewrite <-Z2Qc_inj_0 in E. apply Z2Qc_inj in E. lia.
Qed.

(** One step of the running mean, in product form. *)
Lemma running_mean_step (old_q reward : Qc) (n : Z) :
  (0 ≤ n)%Z →
  (old_q + (reward - old_q) / Qc_of_Z (n + 1)) * Qc_of_Z (n + 1)
  = old_q * Qc_of_Z n + reward.
Proof.
  intros Hn. pose proof (Qc_of_Z_succ_nonzero n Hn) as Hnz.
  rewrite Z2Qc_inj_add, Z2Qc_inj_1 in *. field. exact Hnz.
Qed.

(** Invariant of a run of updates of one arm: the stored average times the
    pull count is the sum of the rewards seen. *)
Lemma update_each_invariant (arm : string) (rewards : list Qc) :
  ∀ (b : UCBBandit) (n : Z),
    (0 ≤ n)%Z → pulls b arm = n →
    ∃ b', update_each arm rewards b = (Ok tt, b')
      ∧ pulls b' arm = (n + Z.of_nat (length rewards))%Z
      ∧ dd_val 0 (q_values b') arm * Qc_of_Z (n + Z.of_nat (length rewards))
        = dd_val 0 (q_values b) arm * Qc_of_Z n + sum_list_Qc rewards
      ∧ (rewards ≠ [] →
         is_Some (action_counts b' !! arm) ∧ is_Some (q_values b' !! arm)).
Proof.
  induction rewards as [|r rest IH]; intros b n Hn Hp.
  - exists b. simpl. rewrite Z.add_0_r, Qcplus_0_r. by repeat split.
  - cbn [update_each]. unfold_monad. rewrite update_eq. cbv zeta.
    rewrite Hp, decide_False by lia.
    set (b1 := mkUCBBandit _ _ _ _ _).
    assert (pulls b1 arm = (n + 1)%Z) as Hp1.
    { unfold pulls, b1. simpl. by rewrite dd_val_insert, decide_True. }
    destruct (IH b1 (n + 1)%Z ltac:(lia) Hp1) as (b' & Hrun & Hcount & Hmean & Hsome).
    exists b'. split; [exact Hrun|].
    assert ((n + 1 + Z.of_nat (length rest))%Z
            = (n + Z.of_nat (length (r :: rest)))%Z) as Hlen.
    { simpl length. lia. }
    rewrite Hlen in *. split; [exact Hcount|]. split.
    + rewrite Hmean. unfold b1. simpl.
      rewrite dd_val_insert, decide_True by done.
      rewrite running_mean_step by done. simpl. ring.
    + intros _. destruct rest as [|r' rest'].
      * simpl in Hrun. unfold_monad. injection Hrun as <-.
        unfold b1. simpl. rewrite !lookup_insert_eq. eauto.
      * apply Hsome. done.
Qed.
End incremental_mean.

(** C4: starting from a state in which [arm] has no pulls, after
    [update(arm, r_1); ...; update(arm, r_n)] (n >= 1) every call has returned
    normally, [q_values[arm]] is the arithmetic mean of the rewards and
    [action_counts[arm]] is n, exactly, over the rationals. *)
Theorem update_incremental_mean
    (b : ucb_selector.UCBBandit) (arm : string) (r : Qc) (rs : list Qc) :
  ucb_selector.pulls b arm = 0%Z →
  ∃ b', update_each arm (r :: rs) b = (Ok tt, b')
    ∧ ucb_selector.q_values b' !! arm = Some (mean (r :: rs))
    ∧ ucb_selector.action_counts b' !! arm
      = Some (Z.of_nat (length (r :: rs))).
Proof.
  intros Hp.
  destruct (update_each_invariant arm (r :: rs) b 0 ltac:(lia) Hp)
    as (b' & Hrun & Hcount & Hmean & Hsome).
  destruct (Hsome ltac:(done)) as [[n Hn] [v Hv]].
  exists b'. split; [exact Hrun|].
  unfold ucb_selector.pulls in Hcount.
  rewrite (dd_val_lookup _ _ _ _ Hn) in Hcount.
  rewrite (dd_val_lookup _ _ _ _ Hv) in Hmean.
  rewrite Z.add_0_l in *. subst n. split; [|exact Hn].
  rewrite Hv. f_equal. unfold mean.
  rewrite Z2Qc_inj_0, Qcmult_0_r, Qcplus_0_l in Hmean. rewrite <-Hmean.
  assert (Qc_of_Z (Z.of_nat (length (r :: rs))) ≠ 0) as Hnz.
  { simpl length. rewrite Nat2Z.inj_succ, <-Z.add_1_r.
    apply Qc_of_Z_succ_nonzero. lia. }
  field. exact Hnz.
Qed.

Lemma update_incremental_mean_witness :
  ucb_selector.pulls (ucb_selector.init ["strength"; "cardio"] 2) "cardio" = 0%Z
  ∧ ∃ b', update_each "cardio" [1; dec 5 10; dec (-2) 10]
            (ucb_selector.init ["strength"; "cardio"] 2) = (Ok tt, b')
    ∧ ucb_selector.q_values b' !! "cardio"
      = Some (mean [1; dec 5 10; dec (-2) 10])
    ∧ ucb_selector.action_counts b' !! "cardio" = Some 3%Z.
Proof.
  split; [reflexivity|].
  apply (update_incremental_mean
           (ucb_selector.init ["strength"; "cardio"] 2) "cardio"
           1 [dec 5 10; dec (-2) 10]).
  reflexivity.
Defined.

(** ** ucb_selector: cold start and the scoring phase *)

Section bandit_reads.
Import ucb_selector bandit_facts.

Lemma read_count_eq (a : string) (b : UCBBandit) :
  read_count a b
  = (Ok (pulls b a), set_action_counts (<[a := pulls b a]> (action_counts b)) b).
Proof. unfold read_count, pulls. by rewrite dd_get_eq. Qed.

Lemma read_q_eq (a : string) (b : UCBBandit) :
  read_q a b
  = (Ok (dd_val 0 (q_values b) a),
     set_q_values (<[a := dd_val 0 (q_values b) a]> (q_values b)) b).
Proof. unfold read_q. by rewrite dd_get_eq. Qed.

(** Reading a count that is not zero finds the key: nothing is stored. *)
Lemma read_count_present (a : string) (b : UCBBandit) :
  pulls b a ≠ 0%Z → read_count a b = (Ok (pulls b a), b).
Proof.
  intros Hp. unfold read_count, pulls, dd_get, dd_val in *.
  destruct (action_counts b !! a); simpl in *; [|done]. by destruct b.
Qed.

Lemma same_view_refl (b : UCBBandit) : same_view b b.
Proof. by split. Qed.

Lemma same_view_trans (b1 b2 b3 : UCBBandit) :
  same_view b1 b2 → same_view b2 b3 → same_view b1 b3.
Proof.
  intros [] []. split; intros; etrans; eauto.
Qed.

Lemma same_view_read_count (a : string) (b : UCBBandit) :
  same_view b (read_count a b).2.
Proof.
  rewrite read_count_eq. split; simpl; try done.
  intros a'. unfold pulls. simpl. apply dd_val_read.
Qed.

Lemma same_view_read_q (a : string) (b : UCBBandit) :
  same_view b (read_q a b).2.
Proof.
  rewrite read_q_eq. split; simpl; try done.
  intros a'. apply dd_val_read.
Qed.

Lemma counters_nonneg_view (b b' : UCBBandit) :
  same_view b b' → counters_nonneg b → counters_nonneg b'.
Proof.
  intros [] [Ht Hp]. split; [congruence|]. intros a. by rewrite view_pulls0.
Qed.
End bandit_reads.

Section cold_start_facts.
Import ucb_selector bandit_facts.

(** The first element with a decidable property splits the list. *)
Lemma first_split {A} (P : A → Prop) `{∀ x, Decision (P x)} (l : list A) :
  Exists P l →
  ∃ pre x post, l = pre ++ x :: post ∧ Forall (λ y, ¬ P y) pre ∧ P x.
Proof.
  induction l as [|y l IH]; intros HE; [by apply Exists_nil in HE|].
  destruct (decide (P y)) as [Hy|Hy].
  - exists [], y, l. by repeat split.
  - apply Exists_cons in HE as [?|HE]; [done|].
    destruct (IH HE) as (pre & x & post & -> & Hpre & Hx).
    exists (y :: pre), x, post. repeat split; [|done]. by constructor.
Qed.

Lemma cold_start_none (acts : list string) (b : UCBBandit) :
  Forall (λ a, pulls b a ≠ 0%Z) acts → cold_start acts b = (Ok None, b).
Proof.
  induction 1 as [|a acts Ha _ IH]; [done|].
  cbn [cold_start]. unfold_monad. rewrite read_count_present by done.
  by rewrite decide_False.
Qed.

Lemma cold_start_first (pre post : list string) (arm : string) (b : UCBBandit) :
  Forall (λ a, pulls b a ≠ 0%Z) pre → pulls b arm = 0%Z →
  cold_start (pre ++ arm :: post) b
  = (Ok (Some arm), set_action_counts (<[arm := 0%Z]> (action_counts b)) b).
Proof.
  induction 1 as [|a pre Ha _ IH]; intros Harm.
  - cbn [cold_start app]. unfold_monad. rewrite read_count_eq, Harm.
    by rewrite decide_True.
  - cbn [cold_start app]. unfold_monad.
    rewrite read_count_present by done. rewrite decide_False by done.
    by apply IH.
Qed.

(** Phase 1 reaches the formula exactly when no arm reads zero. *)
Lemma reaches_scoring_iff (b : UCBBandit) :
  reaches_scoring b ↔ Forall (λ a, pulls b a ≠ 0%Z) (actions b).
Proof.
  unfold reaches_scoring. split.
  - intros Hr. apply Forall_Exists_neg. intros HE. 
    apply (first_split (λ a, pulls b a = 0%Z)) in HE
      as (pre & x & post & Hact & Hpre & Hx).
    change (actions (stepped b)) with (actions b) in *.
    rewrite Hact, (cold_start_first pre post x (stepped b)) in Hr; done.
  - intros HF. by rewrite (cold_start_none _ (stepped b)).
Qed.
End cold_start_facts.

Section select_action_facts.
Import random ucb_selector bandit_facts.
Variable sqrt_log_ratio : Z → Z → Qc.

(** [select_action] is Phase 1 on the stepped state, then Phase 2. *)
Lemma select_action_eq (b : UCBBandit) (g : Rng) :
  select_action sqrt_log_ratio (b, g) =
    match cold_start (actions b) (stepped b) with
    | (Ok (Some action), b') => (Ok action, (b', g))
    | (Ok None, b') => ucb_phase sqrt_log_ratio (b', g)
    | (Raise e, b') => (Raise e, (b', g))
    end.
Proof.
  unfold select_action, on_bandit. unfold_monad. simpl.
  change (set_total_steps (total_steps b + 1) b) with (stepped b).
  change (actions (stepped b)) with (actions b).
  destruct (cold_start (actions b) (stepped b)) as [[[a|]|e] b']; done.
Qed.
End select_action_facts.

(** C5: when some arm has a pull count of zero, [select_action] returns the
    first such arm of [self.actions]; the generator is left untouched, the
    result does not depend on the scoring formula, and the call does not
    reach the scoring phase.  Its only effects are the increment of
    [total_steps] and the zero entry the read of the returned arm stores. *)
Theorem select_action_cold_start
    (sqrt_log_ratio : Z → Z → Qc)
    (b : ucb_selector.UCBBandit) (g : random.Rng) :
  Exists (λ a, ucb_selector.pulls b a = 0%Z) (ucb_selector.actions b) →
  ∃ pre arm post,
    ucb_selector.actions b = pre ++ arm :: post
    ∧ Forall (λ a, ucb_selector.pulls b a ≠ 0%Z) pre
    ∧ ucb_selector.pulls b arm = 0%Z
    ∧ ucb_selector.select_action sqrt_log_ratio (b, g)
      = (Ok arm,
         (ucb_selector.mkUCBBandit
            (ucb_selector.actions b) (ucb_selector.c b)
            (ucb_selector.q_values b)
            (<[arm := 0%Z]> (ucb_selector.action_counts b))
            (ucb_selector.total_steps b + 1), g))
    ∧ ¬ bandit_facts.reaches_scoring b.
Proof.
  intros HE.
  destruct (first_split (λ a, ucb_selector.pulls b a = 0%Z) _ HE)
    as (pre & arm & post & Hact & Hpre & Harm).
  exists pre, arm, post. repeat split; try done.
  - rewrite select_action_eq, Hact.
    rewrite (cold_start_first pre post arm (bandit_facts.stepped b)).
    + unfold ucb_selector.set_action_counts. simpl. by rewrite Hact.
    + done.
    + done.
  - rewrite reaches_scoring_iff. intros HF.
    rewrite Forall_forall in HF. apply (HF arm); [|done].
    rewrite Hact. apply elem_of_app. right. apply list_elem_of_here.
Qed.

Lemma select_action_cold_start_witness :
  let b := (ucb_selector.update "strength" 1
              (ucb_selector.init ["strength"; "cardio"; "yoga"] 2)).2 in
  let g := random.mkRng (λ _, 0) (λ n, n) 0 in
  Exists (λ a, ucb_selector.pulls b a = 0%Z) (ucb_selector.actions b)
  ∧ ∃ pre arm post,
    ucb_selector.actions b = pre ++ arm :: post
    ∧ Forall (λ a, ucb_selector.pulls b a ≠ 0%Z) pre
    ∧ ucb_selector.pulls b arm = 0%Z
    ∧ ucb_selector.select_action (λ _ _, 0) (b, g)
      = (Ok arm,
         (ucb_selector.mkUCBBandit
            (ucb_selector.actions b) (ucb_selector.c b)
            (ucb_selector.q_values b)
            (<[arm := 0%Z]> (ucb_selector.action_counts b))
            (ucb_selector.total_steps b + 1), g))
    ∧ ¬ bandit_facts.reaches_scoring b.
Proof.
  intros b g.
  assert (Exists (λ a, ucb_selector.pulls b a = 0%Z) (ucb_selector.actions b))
    as HE.
  { apply Exists_cons_tl, Exists_cons_hd. reflexivity. }
  split; [exact HE|].
  exact (select_action_cold_start (λ _ _, 0) b g HE).
Defined.

(** The arm the cold start picks after one pull of the first arm. *)
Example select_action_second_arm :
  (ucb_selector.select_action (λ _ _, 0)
     ((ucb_selector.update "strength" 1
         (ucb_selector.init ["strength"; "cardio"; "yoga"] 2)).2,
      random.mkRng (λ _, 0) (λ n, n) 0)).1 = Ok "cardio"%string.
Proof. reflexivity. Qed.

Section scoring_facts.
Import random ucb_selector bandit_facts.
Variable sqrt_log_ratio : Z → Z → Qc.

Lemma same_view_stored_count (a : string) (b : UCBBandit) :
  same_view b (set_action_counts (<[a := pulls b a]> (action_counts b)) b).
Proof.
  pose proof (same_view_read_count a b) as Hv. by rewrite read_count_eq in Hv.
Qed.

Lemma same_view_stored_q (a : string) (b : UCBBandit) :
  same_view b
    (set_q_values (<[a := dd_val 0 (q_values b) a]> (q_values b)) b).
Proof.
  pose proof (same_view_read_q a b) as Hv. by rewrite read_q_eq in Hv.
Qed.

Lemma cold_start_view (acts : list string) (b : UCBBandit) :
  same_view b (cold_start acts b).2.
Proof.
  revert b. induction acts as [|a acts IH]; intros b.
  - apply same_view_refl.
  - cbn [cold_start]. unfold_monad. rewrite read_count_eq.
    pose proof (same_view_stored_count a b) as Hv.
    destruct (decide _); simpl; [done|].
    eapply same_view_trans; [exact Hv | apply IH].
Qed.

Lemma score_arms_view (acts : list string) :
  ∀ scores b, same_view b (score_arms sqrt_log_ratio acts scores b).2.
Proof.
  induction acts as [|a acts IH]; intros scores b.
  - apply same_view_refl.
  - cbn [score_arms]. unfold_monad. rewrite read_count_eq, read_q_eq.
    set (b1 := set_action_counts _ b).
    set (b2 := set_q_values _ b1).
    assert (same_view b b2) as Hv.
    { eapply same_view_trans; [apply same_view_stored_count|].
      apply same_view_stored_q. }
    destruct (explore_term _ _ _ _); simpl; [|done].
    eapply same_view_trans; [exact Hv | apply IH].
Qed.

Lemma collect_stats_view (acts : list string) :
  ∀ stats b, same_view b (collect_stats acts stats b).2.
Proof.
  induction acts as [|a acts IH]; intros stats b.
  - apply same_view_refl.
  - cbn [collect_stats]. unfold_monad. rewrite read_q_eq, read_count_eq.
    eapply same_view_trans; [|apply IH].
    eapply same_view_trans; [apply same_view_stored_q|].
    apply same_view_stored_count.
Qed.

(** Whatever branch [ucb_phase] ends in, the bandit is read only. *)
Lemma ucb_phase_view (b : UCBBandit) (g : Rng) :
  same_view b (ucb_phase sqrt_log_ratio (b, g)).2.1.
Proof.
  unfold ucb_phase, on_bandit, on_rng. unfold_monad. simpl.
  pose proof (score_arms_view (actions b) [] b) as Hv.
  destruct (score_arms _ _ _ _) as [[scores|e] b']; simpl in *; [|done].
  destruct (py_max _); simpl; [|done].
  by destruct (choice _ _) as [[?|?] ?].
Qed.

Lemma select_action_view (b : UCBBandit) (g : Rng) :
  same_view (stepped b) (select_action sqrt_log_ratio (b, g)).2.1.
Proof.
  rewrite select_action_eq.
  pose proof (cold_start_view (actions b) (stepped b)) as Hv.
  destruct (cold_start _ _) as [[[a|]|e] b']; simpl in *; try done.
  eapply same_view_trans; [exact Hv | apply ucb_phase_view].
Qed.

(** The invariant of reachable states. *)
Lemma reachable_counters_nonneg (b : UCBBandit) :
  reachable sqrt_log_ratio b → counters_nonneg b.
Proof.
  induction 1 as [acts c0|b g _ IH|b a r _ IH|b _ IH].
  - split; [done|]. intros a. by unfold pulls, dd_val.
  - eapply counters_nonneg_view; [apply select_action_view|].
    destruct IH as [Ht Hp]. split; [simpl; lia | exact Hp].
  - destruct IH as [Ht Hp]. rewrite update_eq. cbv zeta.
    destruct (decide _); (split; [done|]); intros a';
      pose proof (Hp a); pose proof (Hp a'); unfold pulls in *; simpl;
      rewrite dd_val_insert; destruct (decide (a = a')); lia.
  - eapply counters_nonneg_view; [|exact IH].
    unfold get_statistics. unfold_monad. apply collect_stats_view.
Qed.

Lemma explore_term_defined (c : Qc) (total n : Z) :
  (1 ≤ total)%Z → (1 ≤ n)%Z →
  explore_term sqrt_log_ratio c total n = Ok (c * sqrt_log_ratio total n).
Proof.
  intros Ht Hn. unfold explore_term.
  rewrite !decide_False by lia. done.
Qed.

Lemma dict_set_keys (k : string) (v : Qc) (d : list (string * Qc)) (a : string) :
  a ∈ (dict_set k v d).*1 ↔ a = k ∨ a ∈ d.*1.
Proof.
  induction d as [|[k' v'] d IH]; simpl.
  - rewrite list_elem_of_singleton, elem_of_nil. tauto.
  - destruct (decide (k' = k)) as [->|Hne]; simpl.
    + rewrite !elem_of_cons. tauto.
    + rewrite !elem_of_cons, IH. tauto.
Qed.

Lemma score_arms_defined (acts : list string) :
  ∀ scores b,
    (1 ≤ total_steps b)%Z → (∀ a, a ∈ acts → (1 ≤ pulls b a)%Z) →
    ∃ scores' b',
      score_arms sqrt_log_ratio acts scores b = (Ok scores', b')
      ∧ ∀ a, a ∈ scores'.*1 ↔ a ∈ scores.*1 ∨ a ∈ acts.
Proof.
  induction acts as [|a acts IH]; intros scores b Ht Hp.
  - exists scores, b. split; [done|]. intros a. rewrite elem_of_nil. tauto.
  - cbn [score_arms]. unfold_monad. rewrite read_count_eq, read_q_eq.
    set (b1 := set_action_counts _ b).
    set (b2 := set_q_values _ b1).
    assert (same_view b b2) as [_ _ Hvt Hvp _].
    { eapply same_view_trans; [apply same_view_stored_count|].
      apply same_view_stored_q. }
    change (total_steps b2) with (total_steps b).
    rewrite explore_term_defined; [|done|apply Hp, list_elem_of_here].
    simpl.
    destruct (IH (dict_set a (dd_val 0 (q_values b1) a
                   + c b2 * sqrt_log_ratio (total_steps b) (pulls b a)) scores) b2)
      as (scores' & b' & Hrun & Hkeys).
    { by rewrite Hvt. }
    { intros a' Ha'. rewrite Hvp. by apply Hp, list_elem_of_further. }
    exists scores', b'. split; [exact Hrun|].
    intros a'. rewrite Hkeys, dict_set_keys, elem_of_cons. tauto.
Qed.

Lemma ucb_phase_defined (b : UCBBandit) (g : Rng) :
  actions b ≠ [] →
  (1 ≤ total_steps b)%Z → (∀ a, a ∈ actions b → (1 ≤ pulls b a)%Z) →
  ∃ arm b', ucb_phase sqrt_log_ratio (b, g) = (Ok arm, (b', advance g))
    ∧ arm ∈ actions b.
Proof.
  intros Hne Ht Hp. unfold ucb_phase, on_bandit, on_rng. unfold_monad. simpl.
  destruct (score_arms_defined (actions b) [] b Ht Hp)
    as (scores & b' & -> & Hkeys).
  simpl.
  assert (scores.*2 ≠ []) as Hvals.
  { destruct (actions b) as [|a acts] eqn:E; [done|].
    assert (a ∈ scores.*1) as Ha by (apply Hkeys; right; apply list_elem_of_here).
    intros Hnil. apply fmap_nil_inv in Hnil. subst scores.
    by apply elem_of_nil in Ha. }
  destruct (py_max_nonempty _ Hvals) as [m Hm]. rewrite Hm. simpl.
  apply py_max_spec in Hm as [Hin _].
  apply list_elem_of_fmap in Hin as ([k v] & -> & Hkv).
  cbn [snd].
  destruct (choice_defined
              (filter (λ item, item.2 = v) scores).*1 g) as (arm & -> & Harm).
  { intros Hnil. apply fmap_nil_inv in Hnil.
    assert ((k, v) ∈ filter (λ item : string * Qc, item.2 = v) scores) as Hf.
    { by apply list_elem_of_filter. }
    rewrite Hnil in Hf. by apply elem_of_nil in Hf. }
  exists arm, b'. split; [done|].
  apply list_elem_of_fmap in Harm as ([k' v'] & -> & Hk').
  apply list_elem_of_filter in Hk' as [_ Hk'].
  assert (k' ∈ scores.*1) as Hk.
  { apply list_elem_of_fmap. by exists (k', v'). }
  apply Hkeys in Hk as [Hk|Hk]; [by apply elem_of_nil in Hk | done].
Qed.
End scoring_facts.

(** C6: in a state reached from the constructor through the methods of the
    class, a call of [select_action] that gets to the scoring phase evaluates
    the formula with [total_steps >= 1] and every [action_counts[action] >= 1]:
    each exploration term is defined, the call raises neither
    ZeroDivisionError nor a math domain error, and with a non-empty arm list
    it returns one of the arms. *)
Theorem scoring_phase_divisors_positive
    (sqrt_log_ratio : Z → Z → Qc)
    (b : ucb_selector.UCBBandit) (g : random.Rng) :
  ucb_selector.reachable sqrt_log_ratio b →
  bandit_facts.reaches_scoring b →
  (1 ≤ ucb_selector.total_steps (bandit_facts.stepped b))%Z
  ∧ Forall (λ a, (1 ≤ ucb_selector.pulls b a)%Z) (ucb_selector.actions b)
  ∧ Forall (λ a,
      ucb_selector.explore_term sqrt_log_ratio (ucb_selector.c b)
        (ucb_selector.total_steps (bandit_facts.stepped b))
        (ucb_selector.pulls b a)
      = Ok (ucb_selector.c b
            * sqrt_log_ratio
                (ucb_selector.total_steps (bandit_facts.stepped b))
                (ucb_selector.pulls b a)))
      (ucb_selector.actions b)
  ∧ (ucb_selector.select_action sqrt_log_ratio (b, g)).1
    ≠ Raise ZeroDivisionError
  ∧ (ucb_selector.select_action sqrt_log_ratio (b, g)).1
    ≠ Raise MathDomainError
  ∧ (ucb_selector.actions b ≠ [] →
     ∃ arm, (ucb_selector.select_action sqrt_log_ratio (b, g)).1 = Ok arm
            ∧ arm ∈ ucb_selector.actions b).
Proof.
  intros Hreach Hscore.
  destruct (reachable_counters_nonneg _ _ Hreach) as [Ht Hp].
  pose proof (proj1 (reaches_scoring_iff b) Hscore) as Hnz.
  assert (1 ≤ ucb_selector.total_steps (bandit_facts.stepped b))%Z as Ht1.
  { simpl. lia. }
  assert (Forall (λ a, (1 ≤ ucb_selector.pulls b a)%Z) (ucb_selector.actions b))
    as Hp1.
  { eapply Forall_impl; [exact Hnz|]. intros a Ha. specialize (Hp a). simpl in *. lia. }
  assert ((ucb_selector.select_action sqrt_log_ratio (b, g))
          = ucb_selector.ucb_phase sqrt_log_ratio (bandit_facts.stepped b, g))
    as Hsel.
  { rewrite select_action_eq.
    by rewrite (cold_start_none _ (bandit_facts.stepped b)). }
  split; [exact Ht1|]. split; [exact Hp1|]. split.
  { eapply Forall_impl; [exact Hp1|]. intros a Ha. simpl in Ha.
    by apply explore_term_defined. }
  destruct (ucb_selector.actions b) as [|a0 acts] eqn:Hacts.
  - rewrite Hsel. unfold ucb_selector.ucb_phase, ucb_selector.on_bandit.
    unfold_monad. simpl. rewrite Hacts. simpl. done.
  - destruct (ucb_phase_defined sqrt_log_ratio (bandit_facts.stepped b) g)
      as (arm & b' & Hrun & Harm).
    + simpl. by rewrite Hacts.
    + exact Ht1.
    + intros a Ha. simpl in Ha. rewrite Hacts in Ha.
      rewrite Forall_forall in Hp1. by apply Hp1.
    + rewrite Hsel, Hrun. simpl. repeat split; try done.
      intros _. exists arm. split; [done|]. simpl in Harm. by rewrite <-Hacts.
Qed.

Lemma scoring_phase_divisors_positive_witness :
  let b := (ucb_selector.update "cardio" (dec 5 10)
              (ucb_selector.update "strength" 1
                 (ucb_selector.init ["strength"; "cardio"] 2)).2).2 in
  let g := random.mkRng (λ _, 0) (λ n, n) 0 in
  (ucb_selector.reachable (λ _ _, 1) b ∧ bandit_facts.reaches_scoring b)
  ∧ (1 ≤ ucb_selector.total_steps (bandit_facts.stepped b))%Z
  ∧ Forall (λ a, (1 ≤ ucb_selector.pulls b a)%Z) (ucb_selector.actions b)
  ∧ (ucb_selector.select_action (λ _ _, 1) (b, g)).1 ≠ Raise ZeroDivisionError
  ∧ (ucb_selector.select_action (λ _ _, 1) (b, g)).1 ≠ Raise MathDomainError.
Proof.
  intros b g.
  assert (ucb_selector.reachable (λ _ _, 1) b) as Hreach.
  { apply ucb_selector.reach_update, ucb_selector.reach_update,
      ucb_selector.reach_init. }
  assert (bandit_facts.reaches_scoring b) as Hscore by reflexivity.
  split; [by split|].
  destruct (scoring_phase_divisors_positive (λ _ _, 1) b g Hreach Hscore)
    as (H1 & H2 & _ & H4 & H5 & _).
  auto.
Defined.

(** With formula value 1 everywhere, the two pulled arms score 1 + 2 and
    1/2 + 2: the maximiser is the first arm. *)
Example select_action_scoring_sample :
  (ucb_selector.select_action (λ _ _, 1)
     ((ucb_selector.update "cardio" (dec 5 10)
         (ucb_selector.update "strength" 1
            (ucb_selector.init ["strength"; "cardio"] 2)).2).2,
      random.mkRng (λ _, 0) (λ n, n) 0)).1 = Ok "strength"%string.
Proof. reflexivity. Qed.

(** ** q_learner: reads, the update rule, greedy selection *)

Section q_reads.
Import q_learner q_facts.
Context `{Countable State}.
Implicit Types (ag : QLearningAgent State) (d : gmap (State * string) Qc).

Lemma q_read_eq (key : State * string) ag :
  read_q key ag
  = (Ok (dd_val 0 (q ag) key),
     set_q (<[key := dd_val 0 (q ag) key]> (q ag)) ag).
Proof. unfold read_q. by rewrite dd_get_eq. Qed.

Lemma dd_val_materialize (state : State) (acts : list string) d key :
  dd_val 0 (materialize state acts d) key = dd_val 0 d key.
Proof.
  revert d. induction acts as [|a acts IH]; intros d; [done|].
  simpl. rewrite IH. apply dd_val_read.
Qed.

Lemma materialize_lookup (state : State) (acts : list string) d key :
  materialize state acts d !! key
  = if decide (key ∈ (λ a, (state, a)) <$> acts)
    then Some (dd_val 0 d key) else d !! key.
Proof.
  revert d. induction acts as [|a acts IH]; intros d.
  - cbn [materialize]. destruct (decide _) as [Hin|]; [|done].
    by apply elem_of_nil in Hin.
  - cbn [materialize fmap list_fmap]. rewrite IH, dd_val_read.
    destruct (decide (key ∈ _ <$> acts)) as [Hin|Hnin].
    + rewrite decide_True; [done|]. by apply list_elem_of_further.
    + rewrite lookup_insert. destruct (decide ((state, a) = key)) as [<-|Hne].
      * rewrite decide_True; [done|]. apply list_elem_of_here.
      * rewrite decide_False; [done|].
        intros [?|?]%elem_of_cons; congruence.
Qed.

Lemma read_row_eq (state : State) (acts : list string) ag :
  read_row state acts ag
  = (Ok (q_value ag state <$> acts), set_q (materialize state acts (q ag)) ag).
Proof.
  revert ag. induction acts as [|a acts IH]; intros ag.
  - simpl. unfold_monad. by destruct ag.
  - cbn [read_row]. unfold_monad. rewrite q_read_eq, IH. simpl.
    f_equal. f_equal. f_equal.
    apply list_fmap_ext. intros _ a' _. unfold q_value. simpl.
    apply dd_val_read.
Qed.

Lemma read_best_eq (state : State) (max_q : Qc) (acts : list string) ag :
  read_best state max_q acts ag
  = (Ok (maximisers ag state max_q acts),
     set_q (materialize state acts (q ag)) ag).
Proof.
  revert ag. induction acts as [|a acts IH]; intros ag.
  - simpl. unfold_monad. by destruct ag.
  - cbn [read_best]. unfold_monad. rewrite q_read_eq, IH. simpl.
    f_equal. f_equal. unfold maximisers. rewrite filter_cons.
    assert (filter (λ a0, q_value
              (set_q (<[(state, a):=dd_val 0 (q ag) (state, a)]> (q ag)) ag)
              state a0 = max_q) acts
            = filter (λ a0, q_value ag state a0 = max_q) acts) as ->.
    { apply list_filter_iff. intros a'. unfold q_value. simpl.
      by rewrite dd_val_read. }
    unfold q_value at 2. by destruct (decide _).
Qed.

(** [update] in closed form. *)
Lemma q_update_eq (state : State) (action : string) (reward : Qc)
    (next_state : State) ag :
  update state action reward next_state ag =
    let d := materialize next_state (actions ag) (q ag) in
    match py_max (q_value ag next_state <$> actions ag) with
    | Raise e => (Raise e, set_q d ag)
    | Ok max_next_q =>
        let old_q := q_value ag state action in
        (Ok tt,
         set_q (<[(state, action) :=
                    old_q + alpha ag * (reward + gamma ag * max_next_q - old_q)]> d)
               ag)
    end.
Proof.
  unfold update. unfold_monad. rewrite read_row_eq. cbv zeta.
  destruct (py_max _) as [m|e]; simpl; [|done].
  rewrite q_read_eq. simpl. rewrite insert_insert_eq.
  unfold q_value. by rewrite dd_val_materialize.
Qed.
End q_reads.

(** C7: with a non-empty action list, [update(s, a, r, s')] returns normally
    and stores [oldQ + alpha * (r + gamma * maxNextQ - oldQ)] under [(s, a)],
    where [oldQ] is the value a read of [(s, a)] sees before the call (0.0 if
    the key is absent) and [maxNextQ] is the largest value a read of
    [(s', a')] sees over the declared actions.  Every [(s', a')] is a key of
    the table afterwards; no key other than [(s, a)] changes the value it
    reads as, and keys outside the row of [s'] and other than [(s, a)] are
    left exactly as they were. *)
Theorem q_update_rule `{Countable State}
    (ag : q_learner.QLearningAgent State)
    (s : State) (a : string) (r : Qc) (s' : State) :
  q_learner.actions ag ≠ [] →
  ∃ max_next_q ag',
    q_learner.update s a r s' ag = (Ok tt, ag')
    ∧ max_next_q ∈ q_learner.q_value ag s' <$> q_learner.actions ag
    ∧ (∀ a', a' ∈ q_learner.actions ag →
         q_learner.q_value ag s' a' ≤ max_next_q)
    ∧ q_learner.q ag' !! (s, a)
      = Some (q_learner.q_value ag s a
              + q_learner.alpha ag
                * (r + q_learner.gamma ag * max_next_q
                   - q_learner.q_value ag s a))
    ∧ (∀ a', a' ∈ q_learner.actions ag →
         is_Some (q_learner.q ag' !! (s', a')))
    ∧ (∀ st act, (st, act) ≠ (s, a) →
         q_learner.q_value ag' st act = q_learner.q_value ag st act)
    ∧ (∀ key, key ≠ (s, a) →
         key ∉ (λ a', (s', a')) <$> q_learner.actions ag →
         q_learner.q ag' !! key = q_learner.q ag !! key)
    ∧ q_learner.actions ag' = q_learner.actions ag
    ∧ q_learner.alpha ag' = q_learner.alpha ag
    ∧ q_learner.gamma ag' = q_learner.gamma ag
    ∧ q_learner.epsilon ag' = q_learner.epsilon ag.
Proof.
  intros Hne.
  destruct (py_max_nonempty (q_learner.q_value ag s' <$> q_learner.actions ag))
    as [m Hm].
  { intros Hnil. by apply fmap_nil_inv in Hnil. }
  rewrite q_update_eq. cbv zeta. rewrite Hm.
  apply py_max_spec in Hm as [Hin Hmax].
  eexists m, _. split; [reflexivity|]. simpl.
  split; [exact Hin|]. split.
  { intros a' Ha'. apply Hmax. by apply list_elem_of_fmap_2. }
  split; [by rewrite lookup_insert_eq|]. split.
  { intros a' Ha'. rewrite lookup_insert.
    destruct (decide _); [by eexists|].
    rewrite materialize_lookup, decide_True; [by eexists|].
    by apply (list_elem_of_fmap_2 (λ a0, (s', a0))). }
  split.
  { intros st act Hne'. unfold q_learner.q_value. simpl.
    rewrite dd_val_insert, decide_False by done.
    apply dd_val_materialize. }
  split; [|done].
  intros key Hkey Hrow. rewrite lookup_insert_ne by done.
  by rewrite materialize_lookup, decide_False.
Qed.

Lemma q_update_rule_witness :
  let ag := q_learner.mkQLearningAgent ["add_cardio"; "finalize"]%string
              (dec 1 10) (dec 9 10) 0
              ({[ (1%Z, "finalize"%string) := dec 8 10 ]} : gmap (Z * string) Qc) in
  q_learner.actions ag ≠ []
  ∧ ∃ max_next_q ag',
      q_learner.update 0%Z "add_cardio" (dec (-5) 100) 1%Z ag = (Ok tt, ag')
      ∧ max_next_q ∈ q_learner.q_value ag 1%Z <$> q_learner.actions ag
      ∧ (∀ a', a' ∈ q_learner.actions ag →
           q_learner.q_value ag 1%Z a' ≤ max_next_q)
      ∧ q_learner.q ag' !! (0%Z, "add_cardio"%string)
        = Some (q_learner.q_value ag 0%Z "add_cardio"
                + q_learner.alpha ag
                  * (dec (-5) 100 + q_learner.gamma ag * max_next_q
                     - q_learner.q_value ag 0%Z "add_cardio")).
Proof.
  intros ag. split; [discriminate|].
  destruct (q_update_rule ag 0%Z "add_cardio" (dec (-5) 100) 1%Z)
    as (m & ag' & H1 & H2 & H3 & H4 & _).
  { discriminate. }
  exists m, ag'. auto.
Defined.

(** The same update, evaluated: 0 + 0.1 * (-0.05 + 0.9 * 0.8 - 0) = 0.067. *)
Example q_update_sample :
  q_learner.q
    (q_learner.update 0%Z "add_cardio" (dec (-5) 100) 1%Z
       (q_learner.mkQLearningAgent ["add_cardio"; "finalize"]%string
          (dec 1 10) (dec 9 10) 0
          ({[ (1%Z, "finalize"%string) := dec 8 10 ]} : gmap (Z * string) Qc))).2
    !! (0%Z, "add_cardio"%string) = Some (dec 67 1000).
Proof. qc_eq. Qed.

Section greedy.
Import random q_learner q_facts.
Context `{Countable State}.
Implicit Types (ag : QLearningAgent State).

Lemma maximisers_view ag ag' (state : State) (max_q : Qc) (acts : list string) :
  (∀ a, q_value ag' state a = q_value ag state a) →
  maximisers ag' state max_q acts = maximisers ag state max_q acts.
Proof.
  intros Hv. unfold maximisers. apply list_filter_iff. intros a.
  by rewrite Hv.
Qed.

(** Reading a row a second time stores nothing new. *)
Lemma materialize_twice ag (state : State) (acts : list string) :
  set_q (materialize state acts (materialize state acts (q ag)))
        (set_q (materialize state acts (q ag)) ag)
  = set_q (materialize state acts (q ag)) ag.
Proof.
  unfold set_q. simpl. f_equal.
  apply map_eq. intros key. rewrite !materialize_lookup.
  destruct (decide _); [|done]. by rewrite dd_val_materialize.
Qed.

(** [select_action] in closed form. *)
Lemma q_select_action_eq ag (state : State) (g : Rng) :
  select_action state (ag, g) =
    if decide (unit_draws g (cursor g) < epsilon ag)
    then let '(r, g') := choice (actions ag) (advance g) in (r, (ag, g'))
    else
      let ag' := set_q (materialize state (actions ag) (q ag)) ag in
      match py_max (q_value ag state <$> actions ag) with
      | Raise e => (Raise e, (ag', advance g))
      | Ok max_q =>
          let '(r, g') :=
            choice (maximisers ag state max_q (actions ag)) (advance g) in
          (r, (ag', g'))
      end.
Proof.
  unfold select_action, on_rng, on_agent, random.random.
  unfold_monad. simpl.
  destruct (decide _); simpl.
  { by destruct (choice _ _) as [[a|e] g']. }
  rewrite read_row_eq. simpl.
  destruct (py_max _) as [m|e]; simpl; [|done].
  rewrite read_best_eq. simpl.
  rewrite (maximisers_view ag).
  2:{ intros a. unfold q_value. simpl. apply dd_val_materialize. }
  rewrite materialize_twice.
  by destruct (choice _ _) as [[a|e] g'].
Qed.

(** With [epsilon = 0] the comparison [random.random() < self.epsilon]
    fails, and the call is the exploitation branch. *)
Lemma select_action_greedy_eq ag (state : State) (g : Rng) :
  epsilon ag = 0 → unit_interval g →
  select_action state (ag, g) =
    let ag' := set_q (materialize state (actions ag) (q ag)) ag in
    match py_max (q_value ag state <$> actions ag) with
    | Raise e => (Raise e, (ag', advance g))
    | Ok max_q =>
        let '(r, g') :=
          choice (maximisers ag state max_q (actions ag)) (advance g) in
        (r, (ag', g'))
    end.
Proof.
  intros Heps Hg. rewrite q_select_action_eq, Heps.
  by rewrite decide_False by (apply Qcle_not_lt, Hg).
Qed.

(** Whatever it returns, [select_action] keeps the parameters of the
    agent, and a returned action is one of [self.actions]. *)
Lemma q_select_action_frame ag (state : State) (g : Rng) r ag' g' :
  select_action state (ag, g) = (r, (ag', g')) →
  actions ag' = actions ag
  ∧ (∀ a, r = Ok a → a ∈ actions ag).
Proof.
  rewrite q_select_action_eq. destruct (decide _).
  - destruct (choice _ _) as [r0 g0] eqn:E. intros [= <- <- <-].
    split; [done|]. intros a ->. by eapply choice_elem.
  - cbv zeta. destruct (py_max _) as [m|e].
    + destruct (choice _ _) as [r0 g0] eqn:E. intros [= <- <- <-].
      split; [done|]. intros a ->. apply choice_elem in E.
      unfold maximisers in E. by apply list_elem_of_filter in E as [_ E].
    + intros [= <- <- <-]. by split.
Qed.

(** A non-empty action list is all [select_action] needs to return. *)
Lemma q_select_action_defined ag (state : State) (g : Rng) :
  actions ag ≠ [] →
  ∃ a ag' g', select_action state (ag, g) = (Ok a, (ag', g')).
Proof.
  intros Hne. rewrite q_select_action_eq. destruct (decide _).
  - destruct (choice_defined (actions ag) (advance g) Hne) as (a & -> & _).
    eauto.
  - cbv zeta.
    destruct (py_max_nonempty (q_value ag state <$> actions ag)) as [m Hm].
    { intros Hnil. by apply fmap_nil_inv in Hnil. }
    rewrite Hm. apply py_max_spec in Hm as [Hin _].
    apply list_elem_of_fmap in Hin as (a0 & Hm0 & Ha0).
    destruct (choice_defined (maximisers ag state m (actions ag)) (advance g))
      as (a & -> & _); [|eauto].
    intros Hnil.
    assert (a0 ∈ maximisers ag state m (actions ag)) as Hc.
    { unfold maximisers. by apply list_elem_of_filter. }
    rewrite Hnil in Hc. by apply elem_of_nil in Hc.
Qed.

Lemma q_update_defined ag (state : State) (action : string) (reward : Qc)
    (next_state : State) :
  actions ag ≠ [] →
  ∃ ag', update state action reward next_state ag = (Ok tt, ag')
         ∧ actions ag' = actions ag.
Proof.
  intros Hne. rewrite q_update_eq. cbv zeta.
  destruct (py_max_nonempty (q_value ag next_state <$> actions ag)) as [m ->].
  { intros Hnil. by apply fmap_nil_inv in Hnil. }
  eauto.
Qed.

Lemma q_update_frame ag (state : State) (action : string) (reward : Qc)
    (next_state : State) :
  actions (update state action reward next_state ag).2 = actions ag.
Proof.
  rewrite q_update_eq. cbv zeta. by destruct (py_max _).
Qed.
End greedy.

(** C8: with [epsilon = 0], draws of [random.random()] in [0, 1) and a
    non-empty action list, [select_action] takes the exploitation branch: it
    consumes one [random()] draw and one [choice] draw, materialises the row
    of [state], and returns a declared action whose value is the maximum of
    the row; the action is the element that [random.choice] picks from the
    list of all maximisers (in declaration order), so the tie is broken by
    the drawn index alone. *)
Theorem select_action_greedy `{Countable State}
    (ag : q_learner.QLearningAgent State) (state : State) (g : random.Rng) :
  q_learner.epsilon ag = 0 →
  random.unit_interval g →
  q_learner.actions ag ≠ [] →
  ∃ max_q a,
    q_learner.select_action state (ag, g)
    = (Ok a,
       (q_learner.set_q
          (q_facts.materialize state (q_learner.actions ag) (q_learner.q ag)) ag,
        random.advance (random.advance g)))
    ∧ a ∈ q_learner.actions ag
    ∧ q_learner.q_value ag state a = max_q
    ∧ (∀ a', a' ∈ q_learner.actions ag →
         q_learner.q_value ag state a' ≤ max_q)
    ∧ (∀ a', a' ∈ q_facts.maximisers ag state max_q (q_learner.actions ag)
         ↔ a' ∈ q_learner.actions ag ∧ q_learner.q_value ag state a' = max_q)
    ∧ q_facts.maximisers ag state max_q (q_learner.actions ag)
        !! (random.index_draws g (S (random.cursor g))
            `mod` length (q_facts.maximisers ag state max_q
                            (q_learner.actions ag)))%nat
      = Some a.
Proof.
  intros Heps Hg Hne.
  rewrite select_action_greedy_eq by done. cbv zeta.
  destruct (py_max_nonempty (q_learner.q_value ag state <$> q_learner.actions ag))
    as [m Hm].
  { intros Hnil. by apply fmap_nil_inv in Hnil. }
  rewrite Hm. apply py_max_spec in Hm as [Hin Hmax].
  assert (∀ a', a' ∈ q_facts.maximisers ag state m (q_learner.actions ag)
            ↔ a' ∈ q_learner.actions ag ∧ q_learner.q_value ag state a' = m)
    as Hbest.
  { intros a'. unfold q_facts.maximisers. rewrite list_elem_of_filter. tauto. }
  assert (q_facts.maximisers ag state m (q_learner.actions ag) ≠ []) as Hnonempty.
  { apply list_elem_of_fmap in Hin as (a0 & Hm0 & Ha0).
    intros Hnil. assert (a0 ∈ q_facts.maximisers ag state m (q_learner.actions ag))
      as Hc by (by apply Hbest).
    rewrite Hnil in Hc. by apply elem_of_nil in Hc. }
  unfold random.choice. simpl.
  destruct (lookup_lt_is_Some_2
              (q_facts.maximisers ag state m (q_learner.actions ag))
              (random.index_draws g (S (random.cursor g))
               `mod` length (q_facts.maximisers ag state m (q_learner.actions ag))))
    as [a Ha].
  { apply Nat.mod_upper_bound.
    by destruct (q_facts.maximisers ag state m (q_learner.actions ag)). }
  rewrite Ha. exists m, a. split; [done|].
  pose proof (list_elem_of_lookup_2 _ _ _ Ha) as Ha'.
  apply Hbest in Ha' as [Hact Hval].
  split; [exact Hact|]. split; [exact Hval|]. split.
  { intros a' Ha'. apply Hmax. by apply list_elem_of_fmap_2. }
  split; [exact Hbest|]. exact Ha.
Qed.

Lemma select_action_greedy_witness :
  let ag := q_learner.mkQLearningAgent
              ["add_strength"; "add_cardio"; "add_flexibility"; "finalize"]%string
              (dec 1 10) (dec 9 10) 0
              ({[ (0%Z, "add_cardio"%string) := dec 3 10;
                  (0%Z, "finalize"%string) := dec 3 10;
                  (0%Z, "add_strength"%string) := dec (-1) 10 ]}
               : gmap (Z * string) Qc) in
  let g := random.mkRng (λ _, 0) (λ n, n) 0 in
  (q_learner.epsilon ag = 0 ∧ random.unit_interval g ∧ q_learner.actions ag ≠ [])
  ∧ ∃ max_q a,
      (q_learner.select_action 0%Z (ag, g)).1 = Ok a
      ∧ a ∈ q_learner.actions ag
      ∧ q_learner.q_value ag 0%Z a = max_q
      ∧ (∀ a', a' ∈ q_learner.actions ag → q_learner.q_value ag 0%Z a' ≤ max_q).
Proof.
  intros ag g.
  assert (q_learner.epsilon ag = 0) as Heps by reflexivity.
  assert (random.unit_interval g) as Hg.
  { intros i. split; simpl; [apply Qcle_refl | reflexivity]. }
  assert (q_learner.actions ag ≠ []) as Hne by discriminate.
  split; [by repeat split|].
  destruct (select_action_greedy ag 0%Z g Heps Hg Hne)
    as (m & a & Hrun & Ha & Hv & Hmax & _).
  exists m, a. rewrite Hrun. auto.
Defined.

(** In that table the maximisers are [add_cardio] and [finalize]; the drawn
    index 1 picks the second. *)
Example select_action_greedy_sample :
  (q_learner.select_action 0%Z
     (q_learner.mkQLearningAgent
        ["add_strength"; "add_cardio"; "add_flexibility"; "finalize"]%string
        (dec 1 10) (dec 9 10) 0
        ({[ (0%Z, "add_cardio"%string) := dec 3 10;
            (0%Z, "finalize"%string) := dec 3 10;
            (0%Z, "add_strength"%string) := dec (-1) 10 ]}
         : gmap (Z * string) Qc),
      random.mkRng (λ _, 0) (λ n, n) 0)).1 = Ok "finalize"%string.
Proof. reflexivity. Qed.

(** ** fitness_agents: one iteration of the episode loop *)

Section episode_step.
Import random reward_calculator fitness_agents fitness_agents.RLController.
Import episode_facts.
Variable scenario : Scenario.
Variable reward_fn : Scenario → string → Result Qc.

Lemma add_branch_eq (action : string) (l : Locals) (w : World) :
  add_branch scenario reward_fn action l w =
    match truthy (_map_action_to_category action) with
    | None => (Ok (- dec 1 10, l), w)
    | Some category =>
        match getitem (fitness_level scenario) with
        | Raise e => (Raise e, w)
        | Ok level =>
            match reward_fn scenario category with
            | Raise e => (Raise e, w)
            | Ok category_reward =>
                match ucb_selector.update category category_reward (bandit w) with
                | (Raise e, b') => (Raise e, mkWorld b' (q_agent w) (rng w))
                | (Ok _, b') =>
                    (Ok (category_reward - dec 5 100,
                         mkLocals
                           (exercises l ++ [added_exercise category level l])
                           (exercise_rewards l ++ [category_reward])
                           (done l) (state l) (total_reward l)
                           (total_exercises l + 1)%Z (step_reward l)),
                     mkWorld b' (q_agent w) (rng w))
                end
            end
        end
    end.
Proof.
  unfold add_branch, on_bandit. unfold_monad.
  destruct (truthy _) as [category|]; [|done].
  destruct (getitem (fitness_level scenario)) as [level|e]; simpl; [|done].
  destruct (reward_fn scenario category) as [cr|e]; simpl; [|done].
  by destruct (ucb_selector.update category cr (bandit w)) as [[[]|e] b'].
Qed.

Lemma loop_body_eq (l : Locals) (w : World) :
  loop_body scenario reward_fn l w =
    match q_learner.select_action (state l) (q_agent w, rng w) with
    | (Raise e, (ag1, g1)) => (Raise e, mkWorld (bandit w) ag1 g1)
    | (Ok action, (ag1, g1)) =>
        match branch scenario reward_fn action l (mkWorld (bandit w) ag1 g1) with
        | (Raise e, w2) => (Raise e, w2)
        | (Ok (step, l2), w2) =>
            match _get_state (exercises l2) (exercise_rewards l2) scenario with
            | Raise e => (Raise e, w2)
            | Ok next_state =>
                match q_learner.update (state l2) action step next_state
                        (q_agent w2) with
                | (Raise e, ag3) =>
                    (Raise e, mkWorld (bandit w2) ag3 (rng w2))
                | (Ok _, ag3) =>
                    (Ok (mkLocals (exercises l2) (exercise_rewards l2)
                           (done l2) next_state (total_reward l2 + step)
                           (total_exercises l2) (Some step)),
                     mkWorld (bandit w2) ag3 (rng w2))
                end
            end
        end
    end.
Proof.
  unfold loop_body, branch, on_q_agent_rng, on_q_agent. unfold_monad.
  destruct (q_learner.select_action _ _) as [[action|e] [ag1 g1]]; simpl; [|done].
  destruct (decide (action = "finalize"%string)) as [->|Hne]; simpl.
  - destruct (finalize_branch scenario l) as [[step l2]|e]; simpl; [|done].
    destruct (_get_state _ _ _) as [ns|e]; simpl; [|done].
    by destruct (q_learner.update _ _ _ _ _) as [[[]|e] ag3].
  - destruct (add_branch _ _ _ _ _) as [[[step l2]|e] w2]; simpl; [|done].
    destruct (_get_state _ _ _) as [ns|e]; simpl; [|done].
    by destruct (q_learner.update _ _ _ _ _) as [[[]|e] ag3].
Qed.

Lemma finalize_branch_eq (l : Locals) :
  finalize_branch scenario l =
    match (match exercises l with
           | _ :: _ => compute_workout_quality (exercises l) scenario
           | [] => Ok (- 1)
           end) with
    | Raise e => Raise e
    | Ok step =>
        Ok (step, mkLocals (exercises l) (exercise_rewards l) true (state l)
                    (total_reward l) (total_exercises l) (step_reward l))
    end.
Proof. unfold finalize_branch. unfold_monad. by destruct (exercises l). Qed.

(** The action table: a declared action is [finalize] or maps to one of
    the three reachable categories. *)
Lemma declared_action_cases (action : string) :
  action ∈ actions →
  action = "finalize"%string
  ∨ ∃ category, truthy (_map_action_to_category action) = Some category.
Proof.
  unfold actions. rewrite !elem_of_cons, elem_of_nil.
  intros [->|[->|[->|[->|[]]]]]; [right|right|right|left]; try done;
    eexists; reflexivity.
Qed.

Lemma mapped_category_range (action category : string) :
  truthy (_map_action_to_category action) = Some category →
  category ∈ ["strength"; "cardio"; "flexibility"]%string.
Proof.
  unfold _map_action_to_category.
  destruct (_ !! action) as [c|] eqn:E; [|done].
  apply lookup_insert_Some in E as [[_ <-]|[_ E]].
  { intros [= <-]. apply list_elem_of_here. }
  apply lookup_insert_Some in E as [[_ <-]|[_ E]].
  { intros [= <-]. apply list_elem_of_further, list_elem_of_here. }
  apply lookup_singleton_Some in E as [_ <-].
  intros [= <-]. do 2 apply list_elem_of_further. apply list_elem_of_here.
Qed.
End episode_step.

Section episode_loop_facts.
Import random reward_calculator fitness_agents fitness_agents.RLController.
Import episode_facts.
Variable scenario : Scenario.
Variable reward_fn : Scenario → string → Result Qc.

(** What a branch that returns has done. *)
Lemma branch_step (action : string) (l l2 : Locals) (w1 w2 : World) (step : Qc) :
  branch scenario reward_fn action l w1 = (Ok (step, l2), w2) →
  q_agent w2 = q_agent w1 ∧ rng w2 = rng w1 ∧ state l2 = state l
  ∧ ((action = "finalize"%string ∧ done l2 = true
      ∧ total_exercises l2 = total_exercises l
      ∧ exercises l2 = exercises l
      ∧ exercise_rewards l2 = exercise_rewards l ∧ w2 = w1)
     ∨ (action ≠ "finalize"%string ∧ done l2 = done l
        ∧ total_exercises l2 = (total_exercises l + 1)%Z
        ∧ ∃ e, exercises l2 = exercises l ++ [e])
     ∨ (action ≠ "finalize"%string
        ∧ truthy (_map_action_to_category action) = None
        ∧ l2 = l ∧ w2 = w1)).
Proof.
  unfold branch. destruct (decide (action = "finalize"%string)) as [->|Hne].
  - unfold m_lift. rewrite finalize_branch_eq.
    destruct (match exercises l with [] => _ | _ => _ end) as [r|e]; [|done].
    intros [= <- <- <-]. simpl. repeat split. left. by repeat split.
  - rewrite add_branch_eq.
    destruct (truthy _) as [category|] eqn:Hcat.
    + destruct (getitem _) as [level|e]; [|done].
      destruct (reward_fn _ _) as [cr|e]; [|done].
      destruct (ucb_selector.update _ _ _) as [[[]|e] b']; [|done].
      intros [= <- <- <-]. simpl. repeat split. right. left.
      repeat split; [done|]. eauto.
    + intros [= <- <- <-]. repeat split. right. right. by repeat split.
Qed.

(** An iteration that returns has finalized, or appended exactly one
    exercise, or (only for an undeclared action) left the plan alone. *)
Lemma loop_body_step (l l' : Locals) (w w' : World) :
  loop_body scenario reward_fn l w = (Ok l', w') →
  q_learner.actions (q_agent w') = q_learner.actions (q_agent w)
  ∧ ((done l' = true ∧ total_exercises l' = total_exercises l
      ∧ exercises l' = exercises l ∧ bandit w' = bandit w)
     ∨ (done l' = done l
        ∧ total_exercises l' = (total_exercises l + 1)%Z
        ∧ ∃ e, exercises l' = exercises l ++ [e])
     ∨ (done l' = done l ∧ total_exercises l' = total_exercises l
        ∧ exercises l' = exercises l ∧ ¬ declared_actions_only w)).
Proof.
  rewrite loop_body_eq.
  destruct (q_learner.select_action _ _) as [[action|e] [ag1 g1]] eqn:Hsel;
    [|done].
  apply q_select_action_frame in Hsel as [Hacts Hin].
  specialize (Hin action eq_refl).
  destruct (branch _ _ _ _ _) as [[[step l2]|e] w2] eqn:Hbr; [|done].
  apply branch_step in Hbr as (Hq & Hg & Hst & Hcases).
  destruct (_get_state _ _ _) as [ns|e]; [|done].
  pose proof (q_update_frame (q_agent w2) (state l2) action step ns) as Hupd.
  destruct (q_learner.update _ _ _ _ _) as [[[]|e] ag3]; [|done].
  intros [= <- <-]. simpl in *. split.
  { rewrite Hupd, Hq. simpl. exact Hacts. }
  destruct Hcases as [(-> & Hd & Ht & He & _ & ->)
                     |[(Hne & Hd & Ht & He)|(Hne & Hmap & -> & ->)]].
  - left. by repeat split.
  - right. left. by repeat split.
  - right. right. repeat split; try done.
    intros Hdecl. unfold declared_actions_only in Hdecl.
    rewrite Forall_forall in Hdecl.
    destruct (declared_action_cases action (Hdecl _ Hin)) as [?|[c Hc]];
      congruence.
Qed.

Lemma episode_loop_exit (fuel : nat) (l : Locals) (w : World) :
  loop_condition l = false →
  episode_loop scenario reward_fn fuel l w = Some (Ok l, w).
Proof. intros Hc. destruct fuel; simpl; by rewrite Hc. Qed.

Lemma loop_condition_true (l : Locals) :
  loop_condition l = true ↔
  done l = false ∧ (total_exercises l < max_exercises)%Z.
Proof.
  unfold loop_condition. rewrite andb_true_iff, negb_true_iff.
  by rewrite bool_decide_eq_true.
Qed.

(** The loop invariant behind the cap: the counter stays within
    [0, max_exercises] and equals the length of the plan. *)
Lemma episode_loop_cap (fuel : nat) :
  ∀ (l l' : Locals) (w w' : World),
    episode_loop scenario reward_fn fuel l w = Some (Ok l', w') →
    (0 ≤ total_exercises l ≤ max_exercises)%Z → counts_match l →
    (0 ≤ total_exercises l' ≤ max_exercises)%Z ∧ counts_match l'.
Proof.
  induction fuel as [|fuel IH]; intros l l' w w'; simpl.
  - destruct (loop_condition l); [done|]. by intros [= <- <-].
  - destruct (loop_condition l) eqn:Hc; [|by intros [= <- <-]].
    apply loop_condition_true in Hc as [_ Hlt].
    destruct (loop_body _ _ _ _) as [[l1|e] w1] eqn:Hbody.
    2:{ done. }
    intros Hrun Hrange Hmatch.
    apply loop_body_step in Hbody
      as [_ [(_ & Ht & He & _)|[(_ & Ht & [e He])|(_ & Ht & He & _)]]].
    + apply (IH _ _ _ _ Hrun); [lia|]. unfold counts_match. by rewrite He, Ht.
    + apply (IH _ _ _ _ Hrun); [lia|]. unfold counts_match in *.
      rewrite He, Ht, length_app. simpl. lia.
    + apply (IH _ _ _ _ Hrun); [lia|]. unfold counts_match. by rewrite He, Ht.
Qed.
End episode_loop_facts.

(** C2: whatever the scenario, the reward function, the learners' state and
    the random draws, an episode that returns [(total_reward, n)] has
    [0 <= n <= max_exercises = 6], and [n] is the number of exercises the
    loop appended to the plan.  The bound holds for every cut-off of the
    loop, because the condition [total_exercises < max_exercises] is tested
    before each iteration and an iteration adds at most one exercise
    ([loop_body_step]). *)
Theorem run_episode_exercise_cap
    (scenario : reward_calculator.Scenario)
    (reward_fn : reward_calculator.Scenario → string → Result Qc)
    (fuel : nat) (w w' : fitness_agents.RLController.World)
    (total_reward : Qc) (n : Z) :
  fitness_agents.RLController.run_episode scenario reward_fn fuel w
    = Some (Ok (total_reward, n), w') →
  (0 ≤ n ≤ fitness_agents.RLController.max_exercises)%Z
  ∧ ∃ state l,
      fitness_agents.RLController.episode_loop scenario reward_fn fuel
        (fitness_agents.RLController.initial_locals state) w = Some (Ok l, w')
      ∧ fitness_agents.RLController.total_exercises l = n
      ∧ Z.of_nat (length (fitness_agents.RLController.exercises l)) = n.
Proof.
  unfold fitness_agents.RLController.run_episode.
  destruct (fitness_agents.RLController._get_state [] [] scenario)
    as [state|e]; [|done].
  destruct (fitness_agents.RLController.episode_loop _ _ _ _ _)
    as [[[l|e] w1]|] eqn:Hloop; [|done|done].
  intros [= <- <- <-].
  destruct (episode_loop_cap scenario reward_fn fuel _ _ _ _ Hloop)
    as [Hrange Hmatch]; [done|done|].
  split; [exact Hrange|]. exists state, l. by repeat split.
Qed.

Lemma run_episode_exercise_cap_witness :
  ∃ total_reward w',
    fitness_agents.RLController.run_episode sample.scenario
      reward_calculator.compute_category_reward 10 episode_facts.fresh_world
    = Some (Ok (total_reward, 1%Z), w')
    ∧ (0 ≤ 1 ≤ fitness_agents.RLController.max_exercises)%Z.
Proof.
  assert (∀ out : option (Result (Qc * Z) * fitness_agents.RLController.World),
            match out with Some (Ok (_, n), _) => Some n | _ => None end
            = Some 1%Z →
            ∃ total_reward w', out = Some (Ok (total_reward, 1%Z), w'))
    as Hshape.
  { intros [[[[t n]|e] w']|] Hn; try discriminate Hn.
    injection Hn as ->. by exists t, w'. }
  destruct (Hshape
              (fitness_agents.RLController.run_episode sample.scenario
                 reward_calculator.compute_category_reward 10
                 episode_facts.fresh_world))
    as (total_reward & w' & E).
  { vm_compute. reflexivity. }
  exists total_reward, w'. split; [exact E|].
  exact (proj1 (run_episode_exercise_cap _ _ _ _ _ _ _ E)).
Defined.

Section episode_termination.
Import random reward_calculator fitness_agents fitness_agents.RLController.
Import episode_facts.
Variable scenario : Scenario.
Variable reward_fn : Scenario → string → Result Qc.

Lemma compute_workout_quality_defined (exercises : list Exercise) :
  has_required_fields scenario →
  ∃ quality, compute_workout_quality exercises scenario = Ok quality.
Proof.
  intros (_ & [t Ht] & [b Hb]). unfold compute_workout_quality.
  destruct exercises as [|e es]; [eauto|].
  rewrite Ht, Hb. simpl. eauto.
Qed.

Lemma get_state_defined (exercises : list Exercise) (rewards : list Qc) :
  has_required_fields scenario →
  ∃ state, _get_state exercises rewards scenario = Ok state.
Proof.
  intros ([f Hf] & [t Ht] & _). unfold _get_state.
  rewrite Ht, Hf. simpl. eauto.
Qed.

(** In a ready world the branch returns, and leaves the world ready. *)
Lemma branch_ready (action : string) (l : Locals) (w : World) :
  ready scenario reward_fn w →
  ∃ step l2 w2, branch scenario reward_fn action l w = (Ok (step, l2), w2)
                ∧ ready scenario reward_fn w2.
Proof.
  intros (Hfields & Hrew & Hne & Hpulls). unfold branch.
  destruct (decide (action = "finalize"%string)) as [->|Hnf].
  - unfold m_lift. rewrite finalize_branch_eq.
    destruct (exercises l) as [|e es] eqn:He.
    + eexists _, _, _. split; [reflexivity|]. unfold ready; auto.
    + rewrite <-He.
      destruct (compute_workout_quality_defined (exercises l) Hfields)
        as [quality ->].
      eexists _, _, _. split; [reflexivity|]. unfold ready; auto.
  - rewrite add_branch_eq.
    destruct (truthy _) as [category|] eqn:Hcat.
    2:{ eexists _, _, _. split; [reflexivity|]. unfold ready; auto. }
    pose proof Hfields as ([f Hf] & Ht & Hb). rewrite Hf. simpl.
    destruct (Hrew category (mapped_category_range _ _ Hcat)) as [cr ->].
    rewrite update_eq. cbv zeta.
    pose proof (Hpulls category) as Hcount.
    rewrite decide_False by lia.
    eexists _, _, _. split; [reflexivity|].
    split; [exact Hfields|]. split; [exact Hrew|]. split; [exact Hne|].
    simpl. intros a.
    unfold ucb_selector.pulls in *. simpl. rewrite dd_val_insert.
    destruct (decide (category = a)) as [->|_]; [lia|apply Hpulls].
Qed.

Lemma loop_body_ready (l : Locals) (w : World) :
  ready scenario reward_fn w →
  ∃ l' w', loop_body scenario reward_fn l w = (Ok l', w')
           ∧ ready scenario reward_fn w'.
Proof.
  intros Hready. pose proof Hready as (Hfields & Hrew & Hne & Hpulls).
  rewrite loop_body_eq.
  destruct (q_select_action_defined (q_agent w) (state l) (rng w) Hne)
    as (action & ag1 & g1 & Hsel).
  rewrite Hsel. apply q_select_action_frame in Hsel as [Hacts _].
  destruct (branch_ready action l (mkWorld (bandit w) ag1 g1))
    as (step & l2 & w2 & Hbr & Hready2).
  { split; [exact Hfields|]. split; [exact Hrew|]. split; [|exact Hpulls].
    simpl. by rewrite Hacts. }
  rewrite Hbr.
  destruct (get_state_defined (exercises l2) (exercise_rewards l2) Hfields)
    as [ns ->].
  destruct Hready2 as (_ & _ & Hne2 & Hpulls2).
  destruct (q_update_defined (q_agent w2) (state l2) action step ns Hne2)
    as (ag3 & -> & Hacts3).
  eexists _, _. split; [reflexivity|].
  split; [exact Hfields|]. split; [exact Hrew|]. split; [|exact Hpulls2].
  simpl. by rewrite Hacts3.
Qed.

(** The measure of the loop: the exercises still allowed. *)
Lemma episode_loop_terminates (fuel : nat) :
  ∀ (l : Locals) (w : World),
    declared_actions_only w →
    (Z.to_nat (max_exercises - total_exercises l) ≤ fuel)%nat →
    ∃ out, episode_loop scenario reward_fn fuel l w = Some out
           ∧ (ready scenario reward_fn w → ∃ l', out.1 = Ok l').
Proof.
  induction fuel as [|fuel IH]; intros l w Hdecl Hfuel.
  - exists (Ok l, w). split; [|eauto].
    apply episode_loop_exit. apply not_true_is_false.
    rewrite loop_condition_true. lia.
  - destruct (loop_condition l) eqn:Hc.
    2:{ exists (Ok l, w). split; [|eauto]. by apply episode_loop_exit. }
    simpl. rewrite Hc. apply loop_condition_true in Hc as [Hd Hlt].
    destruct (loop_body scenario reward_fn l w) as [[l1|e] w1] eqn:Hbody.
    + pose proof (loop_body_step _ _ _ _ _ _ Hbody) as [Hacts Hcases].
      assert (declared_actions_only w1) as Hdecl1.
      { unfold declared_actions_only. by rewrite Hacts. }
      assert (ready scenario reward_fn w → ready scenario reward_fn w1) as Hr.
      { intros Hready.
        destruct (loop_body_ready l w Hready) as (l'' & w'' & Hb & Hr'').
        rewrite Hbody in Hb. by injection Hb as _ <-. }
      destruct Hcases as [(Hdone & _)|[(_ & Ht & _)|(_ & _ & _ & Hbad)]].
      * exists (Ok l1, w1). split; [|eauto]. apply episode_loop_exit.
        unfold loop_condition. by rewrite Hdone.
      * destruct (IH l1 w1 Hdecl1) as (out & Hout & Hok); [lia|].
        exists out. split; [exact Hout|]. intros Hready. by apply Hok, Hr.
      * done.
    + exists (Raise e, w1). split; [done|]. intros Hready.
      destruct (loop_body_ready l w Hready) as (l'' & w'' & Hb & _).
      by rewrite Hbody in Hb.
Qed.
End episode_termination.

(** C3: when the Q-agent was built over the controller's declared actions
    (so [select_action] returns nothing else), [run_episode] terminates: the
    loop is over after at most [max_exercises] iterations, hence within the
    [max_exercises + 1] of the claim, for every scenario, reward function,
    learner state and sequence of draws.  It ends by a normal return or by
    an exception of a callee; in a ready world (required scenario keys,
    reward function defined on the reachable categories, non-empty action
    list, non-negative pull counts) it returns [(total_reward, n)]. *)
Theorem run_episode_terminates
    (scenario : reward_calculator.Scenario)
    (reward_fn : reward_calculator.Scenario → string → Result Qc)
    (w : fitness_agents.RLController.World) (fuel : nat) :
  episode_facts.declared_actions_only w →
  (Z.to_nat fitness_agents.RLController.max_exercises ≤ fuel)%nat →
  ∃ out,
    fitness_agents.RLController.run_episode scenario reward_fn fuel w = Some out
    ∧ (episode_facts.ready scenario reward_fn w →
       ∃ total_reward n, out.1 = Ok (total_reward, n)).
Proof.
  intros Hdecl Hfuel. unfold fitness_agents.RLController.run_episode.
  destruct (fitness_agents.RLController._get_state [] [] scenario)
    as [state|e] eqn:Hstate.
  - destruct (episode_loop_terminates scenario reward_fn fuel
                (fitness_agents.RLController.initial_locals state) w Hdecl)
      as ([[l|e] w'] & -> & Hok).
    { simpl. by rewrite Z.sub_0_r. }
    + eexists. split; [reflexivity|]. simpl. eauto.
    + eexists. split; [reflexivity|]. intros Hready.
      destruct (Hok Hready) as [l' Hl']. done.
  - eexists. split; [reflexivity|]. intros (Hfields & _).
    destruct (get_state_defined scenario [] [] Hfields) as [st Hst].
    congruence.
Qed.

Lemma run_episode_terminates_witness :
  (episode_facts.declared_actions_only episode_facts.fresh_world
   ∧ (Z.to_nat fitness_agents.RLController.max_exercises ≤ 7)%nat)
  ∧ ∃ out total_reward n,
      fitness_agents.RLController.run_episode sample.scenario
        reward_calculator.compute_category_reward 7 episode_facts.fresh_world
      = Some out
      ∧ out.1 = Ok (total_reward, n).
Proof.
  assert (episode_facts.declared_actions_only episode_facts.fresh_world) as Hd.
  { apply Forall_forall. intros a Ha. exact Ha. }
  assert (Z.to_nat fitness_agents.RLController.max_exercises ≤ 7)%nat as Hf.
  { vm_compute. lia. }
  split; [by split|].
  destruct (run_episode_terminates sample.scenario
              reward_calculator.compute_category_reward
              episode_facts.fresh_world 7 Hd Hf) as (out & Hout & Hok).
  destruct Hok as (total_reward & n & Hres).
  { split; [by repeat split; eexists|]. split.
    - intros category _.
      by apply (compute_category_reward_total sample.scenario "strength").
    - split; [discriminate|]. intros a. reflexivity. }
  exists out, total_reward, n. split; [exact Hout | exact Hres].
Defined.

(** ** fitness_agents: the finalize step *)

Section finalize.
Import random reward_calculator fitness_agents fitness_agents.RLController.
Import episode_facts.
Variable scenario : Scenario.
Variable reward_fn : Scenario → string → Result Qc.

(** An iteration in which the agent selects [finalize] and the branch
    yields [step]: the plan and the bandit are untouched, [done] is set,
    the Q-table is updated with [step], and the loop is over. *)
Lemma finalize_iteration (l : Locals) (w : World)
    (ag1 : q_learner.QLearningAgent State) (g1 : Rng)
    (next_state : State) (step : Qc) :
  q_learner.select_action (state l) (q_agent w, rng w)
    = (Ok "finalize"%string, (ag1, g1)) →
  _get_state (exercises l) (exercise_rewards l) scenario = Ok next_state →
  (match exercises l with
   | _ :: _ => compute_workout_quality (exercises l) scenario
   | [] => Ok (- 1)
   end) = Ok step →
  ∃ ag3,
    q_learner.update (state l) "finalize" step next_state ag1 = (Ok tt, ag3)
    ∧ loop_body scenario reward_fn l w
      = (Ok (finalized l next_state step), mkWorld (bandit w) ag3 g1)
    ∧ ∀ fuel,
        episode_loop scenario reward_fn fuel (finalized l next_state step)
          (mkWorld (bandit w) ag3 g1)
        = Some (Ok (finalized l next_state step), mkWorld (bandit w) ag3 g1).
Proof.
  intros Hsel Hstate Hstep.
  pose proof (q_select_action_frame _ _ _ _ _ _ Hsel) as [Hacts Hin].
  specialize (Hin _ eq_refl).
  destruct (q_update_defined ag1 (state l) "finalize" step next_state)
    as (ag3 & Hupd & _).
  { rewrite Hacts. intros Hnil. rewrite Hnil in Hin.
    by apply elem_of_nil in Hin. }
  exists ag3. split; [exact Hupd|]. split.
  - rewrite loop_body_eq, Hsel. unfold branch.
    rewrite decide_True by done. unfold m_lift.
    rewrite finalize_branch_eq, Hstep. simpl. rewrite Hstate, Hupd. done.
  - intros fuel. by apply episode_loop_exit.
Qed.
End finalize.

(** C9: in an iteration where the agent selects [finalize] (and the scenario
    has the keys [_get_state] reads):
    - with an empty plan the step reward is exactly -1.0, no exercise is
      added, the bandit is not touched, [done] becomes true and the loop
      ends; the counter, which equals the length of the plan, is 0, and when
      this is the first iteration [run_episode] returns [(-1.0, 0)];
    - with a non-empty plan the step reward is
      [compute_workout_quality(exercises, scenario)], and the iteration
      finalizes in the same way. *)
Theorem finalize_step_reward
    (scenario : reward_calculator.Scenario)
    (reward_fn : reward_calculator.Scenario → string → Result Qc)
    (l : fitness_agents.RLController.Locals)
    (w : fitness_agents.RLController.World)
    (ag1 : q_learner.QLearningAgent fitness_agents.RLController.State)
    (g1 : random.Rng) (next_state : fitness_agents.RLController.State) :
  q_learner.select_action (fitness_agents.RLController.state l)
    (fitness_agents.RLController.q_agent w, fitness_agents.RLController.rng w)
    = (Ok "finalize"%string, (ag1, g1)) →
  fitness_agents.RLController._get_state
    (fitness_agents.RLController.exercises l)
    (fitness_agents.RLController.exercise_rewards l) scenario = Ok next_state →
  (fitness_agents.RLController.exercises l = [] →
     ∃ ag3,
       q_learner.update (fitness_agents.RLController.state l) "finalize" (- 1)
         next_state ag1 = (Ok tt, ag3)
       ∧ fitness_agents.RLController.loop_body scenario reward_fn l w
         = (Ok (finalized l next_state (- 1)),
            fitness_agents.RLController.mkWorld
              (fitness_agents.RLController.bandit w) ag3 g1)
       ∧ (∀ fuel,
            fitness_agents.RLController.episode_loop scenario reward_fn fuel
              (finalized l next_state (- 1))
              (fitness_agents.RLController.mkWorld
                 (fitness_agents.RLController.bandit w) ag3 g1)
            = Some (Ok (finalized l next_state (- 1)),
                    fitness_agents.RLController.mkWorld
                      (fitness_agents.RLController.bandit w) ag3 g1))
       ∧ (episode_facts.counts_match l →
          fitness_agents.RLController.total_exercises
            (finalized l next_state (- 1)) = 0%Z)
       ∧ (l = fitness_agents.RLController.initial_locals next_state →
          ∀ fuel,
            fitness_agents.RLController.run_episode scenario reward_fn
              (S fuel) w
            = Some (Ok (0 + - 1, 0%Z),
                    fitness_agents.RLController.mkWorld
                      (fitness_agents.RLController.bandit w) ag3 g1)))
  ∧ (fitness_agents.RLController.exercises l ≠ [] →
     ∀ quality,
       reward_calculator.compute_workout_quality
         (fitness_agents.RLController.exercises l) scenario = Ok quality →
       ∃ ag3,
         q_learner.update (fitness_agents.RLController.state l) "finalize"
           quality next_state ag1 = (Ok tt, ag3)
         ∧ fitness_agents.RLController.loop_body scenario reward_fn l w
           = (Ok (finalized l next_state quality),
              fitness_agents.RLController.mkWorld
                (fitness_agents.RLController.bandit w) ag3 g1)
         ∧ (∀ fuel,
              fitness_agents.RLController.episode_loop scenario reward_fn fuel
                (finalized l next_state quality)
                (fitness_agents.RLController.mkWorld
                   (fitness_agents.RLController.bandit w) ag3 g1)
              = Some (Ok (finalized l next_state quality),
                      fitness_agents.RLController.mkWorld
                        (fitness_agents.RLController.bandit w) ag3 g1))).
Proof.
  intros Hsel Hstate. split.
  - intros Hempty.
    destruct (finalize_iteration scenario reward_fn l w ag1 g1 next_state (- 1)
                Hsel Hstate) as (ag3 & Hupd & Hbody & Hexit).
    { by rewrite Hempty. }
    exists ag3. split; [exact Hupd|]. split; [exact Hbody|].
    split; [exact Hexit|]. split.
    + unfold episode_facts.counts_match. rewrite Hempty. simpl. lia.
    + intros Hl fuel. unfold fitness_agents.RLController.run_episode.
      rewrite Hl in Hstate, Hbody, Hexit. simpl in Hstate. rewrite Hstate.
      cbn [fitness_agents.RLController.episode_loop].
      change (fitness_agents.RLController.loop_condition
                (fitness_agents.RLController.initial_locals next_state))
        with true.
      cbv iota. rewrite Hbody, Hexit. done.
  - intros Hne quality Hq.
    destruct (finalize_iteration scenario reward_fn l w ag1 g1 next_state quality
                Hsel Hstate) as (ag3 & Hupd & Hbody & Hexit).
    { destruct (fitness_agents.RLController.exercises l); done. }
    exists ag3. by repeat split.
Qed.

Lemma finalize_step_reward_witness :
  ((q_learner.select_action
      ((0%Z, "low", "plenty", "intermediate")%string
       : fitness_agents.RLController.State)
      (fitness_agents.RLController.q_agent episode_facts.finalizing_world,
       fitness_agents.RLController.rng episode_facts.finalizing_world)).1
   = Ok "finalize"%string
   ∧ fitness_agents.RLController._get_state [] [] sample.scenario
     = Ok (0%Z, "low", "plenty", "intermediate")%string)
  ∧ ∃ w',
      fitness_agents.RLController.run_episode sample.scenario
        reward_calculator.compute_category_reward 1
        episode_facts.finalizing_world
      = Some (Ok (0 + - 1, 0%Z), w')
      ∧ fitness_agents.RLController.bandit w'
        = fitness_agents.RLController.bandit episode_facts.finalizing_world.
Proof.
  assert ((q_learner.select_action
             ((0%Z, "low", "plenty", "intermediate")%string
              : fitness_agents.RLController.State)
             (fitness_agents.RLController.q_agent episode_facts.finalizing_world,
              fitness_agents.RLController.rng episode_facts.finalizing_world)).1
          = Ok "finalize"%string) as Hfirst.
  { vm_compute. reflexivity. }
  assert (fitness_agents.RLController._get_state [] [] sample.scenario
          = Ok (0%Z, "low", "plenty", "intermediate")%string) as Hstate.
  { vm_compute. reflexivity. }
  split; [exact (conj Hfirst Hstate)|].
  assert (∀ r : Result string
                * (q_learner.QLearningAgent fitness_agents.RLController.State
                   * random.Rng),
            r.1 = Ok "finalize"%string →
            r = (Ok "finalize"%string, (r.2.1, r.2.2))) as Hpair.
  { intros [? [? ?]]. simpl. by intros ->. }
  pose proof (Hpair _ Hfirst) as Hsel.
  destruct (finalize_step_reward sample.scenario
              reward_calculator.compute_category_reward
              (fitness_agents.RLController.initial_locals
                 (0%Z, "low", "plenty", "intermediate")%string)
              episode_facts.finalizing_world _ _ _ Hsel Hstate)
    as [Hempty _].
  destruct (Hempty eq_refl) as (ag3 & _ & _ & _ & _ & Hrun).
  eexists. split; [exact (Hrun eq_refl 0%nat)|]. reflexivity.
Defined.

(** The same episode, evaluated. *)
Example run_episode_finalize_sample :
  (λ out : Result (Qc * Z) * fitness_agents.RLController.World, out.1)
    <$> fitness_agents.RLController.run_episode sample.scenario
          reward_calculator.compute_category_reward 1
          episode_facts.finalizing_world
  = Some (Ok (dec (-1) 1, 0%Z)).
Proof.
  vm_compute. do 2 f_equal.
Qed.

(** ** reward_calculator: ranges, errors and the state buckets *)

Section reward_ranges.
Import reward_calculator.


End reward_ranges.

(** X1: [compute_category_reward] raises exactly when the scenario has no
    [best_category] (a KeyError); otherwise it returns one of the four
    rewards 1.0, 0.5, -0.2, 0.0, so a value between -0.2 and 1.0. *)
Theorem compute_category_reward_range
    (scenario : reward_calculator.Scenario) (chosen : string) :
  match reward_calculator.compute_category_reward scenario chosen with
  | Ok r =>
      is_Some (reward_calculator.best_category scenario)
      ∧ r ∈ [1; dec 5 10; dec (-2) 10; 0]
      ∧ dec (-2) 10 ≤ r ∧ r ≤ 1
  | Raise e =>
      e = KeyError ∧ reward_calculator.best_category scenario = None
  end.
Proof.
  unfold reward_calculator.compute_category_reward.
  destruct (reward_calculator.best_category scenario) as [best|]; simpl;
    [|done].
  repeat case_decide; (split; [by eexists|]); (split; [set_solver|]);
    split; by vm_compute.
Qed.



(** X3: [compute_workout_quality] returns 0.0 for an empty plan whatever the
    scenario holds, and raises (a KeyError) exactly when the plan is not
    empty and [time_available] or [best_category] is missing. *)
Theorem compute_workout_quality_errors
    (exercises : list reward_calculator.Exercise)
    (scenario : reward_calculator.Scenario) :
  match reward_calculator.compute_workout_quality exercises scenario with
  | Ok quality =>
      (exercises = [] ∧ quality = 0)
      ∨ (exercises ≠ []
         ∧ is_Some (reward_calculator.time_available scenario)
         ∧ is_Some (reward_calculator.best_category scenario))
  | Raise e =>
      e = KeyError ∧ exercises ≠ []
      ∧ (reward_calculator.time_available scenario = None
         ∨ reward_calculator.best_category scenario = None)
  end.
Proof.
  unfold reward_calculator.compute_workout_quality.
  destruct exercises as [|e es]; [by left|].
  destruct (reward_calculator.time_available scenario) as [t|]; simpl.
  - destruct (reward_calculator.best_category scenario) as [b|]; simpl.
    + right. repeat split; by eauto.
    + repeat split; by eauto.
  - repeat split; by eauto.
Qed.

(** X4: [get_intensity_level] is monotone: a larger average reward never
    yields a lower intensity level (low < medium < high), and the level is
    always one of the three names. *)
Theorem get_intensity_level_monotone (avg avg' : Qc) :
  avg ≤ avg' →
  (buckets.intensity_rank (reward_calculator.get_intensity_level avg)
   ≤ buckets.intensity_rank (reward_calculator.get_intensity_level avg'))%nat
  ∧ reward_calculator.get_intensity_level avg
    ∈ ["low"; "medium"; "high"]%string.
Proof.
  intros Hle. unfold reward_calculator.get_intensity_level.
  split.
  - repeat case_decide; try (vm_compute; lia); exfalso; qc_lra.
  - repeat case_decide; set_solver.
Qed.

Lemma get_intensity_level_monotone_witness :
  dec 5 10 ≤ dec 8 10
  ∧ (buckets.intensity_rank (reward_calculator.get_intensity_level (dec 5 10))
     ≤ buckets.intensity_rank (reward_calculator.get_intensity_level (dec 8 10)))%nat
  ∧ reward_calculator.get_intensity_level (dec 5 10)
    ∈ ["low"; "medium"; "high"]%string.
Proof.
  assert (dec 5 10 ≤ dec 8 10) as Hle by (by vm_compute).
  split; [exact Hle|].
  exact (get_intensity_level_monotone (dec 5 10) (dec 8 10) Hle).
Defined.

(** X5: [get_time_bucket] never improves when exercises are added
    (limited < medium < plenty), and one more exercise is worth exactly 15
    minutes: the bucket for [n + 1] exercises and [t + 15] minutes is the
    bucket for [n] exercises and [t] minutes. *)
Theorem get_time_bucket_monotone (count count' : Z) (time_available : Qc) :
  (count ≤ count')%Z →
  (buckets.time_rank (reward_calculator.get_time_bucket count' time_available)
   ≤ buckets.time_rank (reward_calculator.get_time_bucket count time_available))%nat
  ∧ reward_calculator.get_time_bucket (count + 1) (time_available + Qc_of_Z 15)
    = reward_calculator.get_time_bucket count time_available.
Proof.
  intros Hle. unfold reward_calculator.get_time_bucket. cbv zeta.
  assert (inject_Z (count * 15) <= inject_Z (count' * 15))%Q as Hq.
  { rewrite <-Zle_Qle. lia. }
  assert (inject_Z ((count + 1) * 15) == inject_Z (count * 15) + inject_Z 15)%Q
    as Hs.
  { rewrite Z.mul_add_distr_r, inject_Z_plus. reflexivity. }
  split.
  - repeat case_decide; try (vm_compute; lia); exfalso; qc_to_q;
      q_atoms; lra.
  - repeat case_decide; try reflexivity; exfalso; qc_to_q; q_atoms; lra.
Qed.

Lemma get_time_bucket_monotone_witness :
  (0 ≤ 2)%Z
  ∧ (buckets.time_rank (reward_calculator.get_time_bucket 2 (Qc_of_Z 40))
     ≤ buckets.time_rank (reward_calculator.get_time_bucket 0 (Qc_of_Z 40)))%nat
  ∧ reward_calculator.get_time_bucket (0 + 1) (Qc_of_Z 40 + Qc_of_Z 15)
    = reward_calculator.get_time_bucket 0 (Qc_of_Z 40).
Proof.
  split; [lia|].
  apply (get_time_bucket_monotone 0 2 (Qc_of_Z 40)). lia.
Defined.

(** The two buckets of the specification's examples. *)
Example get_time_bucket_samples :
  reward_calculator.get_time_bucket 0 (Qc_of_Z 60) = "plenty"%string
  ∧ reward_calculator.get_time_bucket 2 (Qc_of_Z 40) = "limited"%string.
Proof. split; reflexivity. Qed.

Section lowercase.
Import pystr.

Lemma to_lower_idempotent (ch : ascii) : to_lower (to_lower ch) = to_lower ch.
Proof. destruct ch as [[] [] [] [] [] [] [] []]; reflexivity. Qed.

Lemma to_lower_not_upper (ch : ascii) : is_upper (to_lower ch) = false.
Proof. destruct ch as [[] [] [] [] [] [] [] []]; reflexivity. Qed.
End lowercase.

(** X6: [get_fitness_level_bucket] is idempotent and its result holds no
    upper-case ASCII letter, so two spellings of a level that differ only in
    case fall into the same bucket of the state. *)
Theorem get_fitness_level_bucket_normalises (fitness_level : string) :
  reward_calculator.get_fitness_level_bucket
    (reward_calculator.get_fitness_level_bucket fitness_level)
  = reward_calculator.get_fitness_level_bucket fitness_level
  ∧ Forall (λ ch, pystr.is_upper ch = false)
      (list_ascii_of_string
         (reward_calculator.get_fitness_level_bucket fitness_level)).
Proof.
  unfold reward_calculator.get_fitness_level_bucket.
  induction fitness_level as [|ch s [IH1 IH2]]; simpl.
  - by split.
  - split.
    + by rewrite to_lower_idempotent, IH1.
    + constructor; [apply to_lower_not_upper | exact IH2].
Qed.

Example get_fitness_level_bucket_sample :
  reward_calculator.get_fitness_level_bucket "InterMediate" = "intermediate"%string.
Proof. reflexivity. Qed.

(** ** ucb_selector: histories, frames and the scoring phase *)

Lemma Qc_this_div (x y : Qc) : (this (x / y) == this x / this y)%Q.
Proof.
  unfold Qcdiv, Qcmult, Qcinv. simpl. rewrite !Qred_correct. reflexivity.
Qed.

Lemma sum_list_Qc_snoc (xs : list Qc) (r : Qc) :
  sum_list_Qc (xs ++ [r]) = sum_list_Qc xs + r.
Proof.
  induction xs as [|x xs IH]; simpl.
  - ring.
  - rewrite IH. ring.
Qed.

Section history.
Import ucb_selector bandit_runs.

Lemma rewards_of_snoc (arm a : string) (r : Qc) (h : list (string * Qc)) :
  rewards_of arm (h ++ [(a, r)])
  = if decide (a = arm) then rewards_of arm h ++ [r] else rewards_of arm h.
Proof.
  unfold rewards_of. rewrite filter_app, fmap_app.
  rewrite filter_cons, filter_nil. simpl.
  destruct (decide (a = arm)); simpl; [done|]. by rewrite app_nil_r.
Qed.

Lemma update_history_tracks (history : list (string * Qc)) :
  ∀ (b : UCBBandit) (h0 : list (string * Qc)),
    tracks b h0 →
    ∃ b', update_history history b = (Ok tt, b')
          ∧ tracks b' (h0 ++ history)
          ∧ total_steps b' = total_steps b
          ∧ actions b' = actions b.
Proof.
  induction history as [|[a r] rest IH]; intros b h0 Htr.
  - exists b. rewrite app_nil_r. split; [done|]. split; [exact Htr|]. by split.
  - cbn [update_history]. unfold_monad. rewrite update_eq. cbv zeta.
    destruct (Htr a) as [Hcount Hsum].
    rewrite decide_False by lia.
    set (b1 := mkUCBBandit _ _ _ _ _).
    destruct (IH b1 (h0 ++ [(a, r)])) as (b' & Hrun & Htr' & Hts & Hacts).
    { intros arm. rewrite rewards_of_snoc. unfold pulls, b1. simpl.
      rewrite !dd_val_insert.
      destruct (decide (a = arm)) as [<-|Hne].
      - fold (pulls b a). rewrite length_app. simpl. split; [lia|].
        rewrite running_mean_step by lia.
        rewrite sum_list_Qc_snoc, <-Hsum. done.
      - apply Htr. }
    exists b'. rewrite <-app_assoc in Htr'.
    split; [exact Hrun|]. split; [exact Htr'|]. by split.
Qed.
End history.

(** X7: updates of different arms do not disturb each other.  After any
    interleaved history of [update(arm, reward)] calls on a new bandit, every
    call has returned, and for each arm [action_counts] holds the number of
    rewards that arm received and [q_values] their arithmetic mean;
    [total_steps] is still 0. *)
Theorem update_history_means
    (arms : list string) (c : Qc) (history : list (string * Qc)) (arm : string) :
  ∃ b',
    bandit_runs.update_history history (ucb_selector.init arms c) = (Ok tt, b')
    ∧ ucb_selector.pulls b' arm
      = Z.of_nat (length (bandit_runs.rewards_of arm history))
    ∧ (bandit_runs.rewards_of arm history ≠ [] →
       dd_val 0 (ucb_selector.q_values b') arm
       = mean (bandit_runs.rewards_of arm history))
    ∧ ucb_selector.total_steps b' = 0%Z.
Proof.
  destruct (update_history_tracks history (ucb_selector.init arms c) [])
    as (b' & Hrun & Htr & Hts & _).
  { intros a. split; [done|]. unfold ucb_selector.pulls, dd_val. simpl.
    apply Qc_is_canon. reflexivity. }
  exists b'. split; [exact Hrun|]. simpl in Htr.
  destruct (Htr arm) as [Hcount Hsum].
  split; [exact Hcount|]. split; [|exact Hts].
  intros Hne. unfold mean. rewrite <-Hsum, Hcount.
  assert (Qc_of_Z (Z.of_nat (length (bandit_runs.rewards_of arm history))) ≠ 0)
    as Hnz.
  { destruct (bandit_runs.rewards_of arm history) as [|x xs]; [done|].
    simpl length. rewrite Nat2Z.inj_succ, <-Z.add_1_r.
    apply Qc_of_Z_succ_nonzero. lia. }
  field. exact Hnz.
Qed.

(** An interleaved history on two arms, evaluated. *)
Example update_history_sample :
  let b := (bandit_runs.update_history
              [("strength", 1); ("cardio", 0); ("strength", dec 5 10)]%string
              (ucb_selector.init ["strength"; "cardio"] 2)).2 in
  ucb_selector.q_values b !! "strength"%string = Some (dec 3 4)
  ∧ ucb_selector.action_counts b !! "strength"%string = Some 2%Z
  ∧ ucb_selector.action_counts b !! "cardio"%string = Some 1%Z.
Proof. intros b. split; [|split]; [qc_eq | reflexivity | reflexivity]. Qed.

(** X8: on an arm whose count is not negative, [update] returns normally,
    raises the count of that arm by exactly one and moves its average to a
    value between the old average and the reward; the count and average of
    every other arm, [total_steps], the arm list and [c] are unchanged. *)
Theorem update_frame
    (b : ucb_selector.UCBBandit) (arm : string) (reward : Qc) :
  (0 ≤ ucb_selector.pulls b arm)%Z →
  ∃ b',
    ucb_selector.update arm reward b = (Ok tt, b')
    ∧ ucb_selector.pulls b' arm = (ucb_selector.pulls b arm + 1)%Z
    ∧ ((dd_val 0 (ucb_selector.q_values b) arm
        ≤ dd_val 0 (ucb_selector.q_values b') arm
        ∧ dd_val 0 (ucb_selector.q_values b') arm ≤ reward)
       ∨ (reward ≤ dd_val 0 (ucb_selector.q_values b') arm
          ∧ dd_val 0 (ucb_selector.q_values b') arm
            ≤ dd_val 0 (ucb_selector.q_values b) arm))
    ∧ (∀ a, a ≠ arm →
         ucb_selector.pulls b' a = ucb_selector.pulls b a
         ∧ dd_val 0 (ucb_selector.q_values b') a
           = dd_val 0 (ucb_selector.q_values b) a)
    ∧ ucb_selector.total_steps b' = ucb_selector.total_steps b
    ∧ ucb_selector.actions b' = ucb_selector.actions b
    ∧ ucb_selector.c b' = ucb_selector.c b.
Proof.
  intros Hp. rewrite update_eq. cbv zeta. rewrite decide_False by lia.
  eexists. split; [reflexivity|]. simpl.
  unfold ucb_selector.pulls in *. simpl. rewrite !dd_val_insert.
  rewrite !decide_True by done.
  split; [done|]. split.
  - set (old := dd_val 0 (ucb_selector.q_values b) arm).
    set (n := (dd_val 0%Z (ucb_selector.action_counts b) arm + 1)%Z) in *.
    assert (1 <= inject_Z n)%Q as Hn.
    { change 1%Q with (inject_Z 1). rewrite <-Zle_Qle. unfold n. lia. }
    assert (¬ (inject_Z n == 0)%Q) as Hnz by lra.
    pose proof (Qmult_div_r (this reward - this old) (inject_Z n) Hnz) as Hd.
    destruct (decide (old ≤ reward)) as [Hle|Hgt]; [left|right];
      qc_to_q; rewrite ?Qc_this_div, ?Qc_this_minus, ?Qc_this_of_Z in *;
      set (q := inject_Z n) in *;
      set (x := ((this reward - this old) / q)%Q) in *;
      clearbody x q; split; nra.
  - split; [|done]. intros a Hne. rewrite !dd_val_insert.
    by rewrite !decide_False by done.
Qed.

Lemma update_frame_witness :
  let b := (ucb_selector.update "cardio" 1
              (ucb_selector.init ["strength"; "cardio"] 2)).2 in
  (0 ≤ ucb_selector.pulls b "cardio")%Z
  ∧ ∃ b',
      ucb_selector.update "cardio" 0 b = (Ok tt, b')
      ∧ ucb_selector.pulls b' "cardio" = (ucb_selector.pulls b "cardio" + 1)%Z.
Proof.
  intros b.
  assert (0 ≤ ucb_selector.pulls b "cardio")%Z as Hp by (vm_compute; discriminate).
  split; [exact Hp|].
  destruct (update_frame b "cardio" 0 Hp) as (b' & Hrun & Hcount & _).
  exists b'. split; [exact Hrun | exact Hcount].
Defined.

Section scoring_maximum.
Import random ucb_selector bandit_facts bandit_runs.
Variable sqrt_log_ratio : Z → Z → Qc.

Lemma dict_set_entries (k : string) (v : Qc) (d : list (string * Qc))
    (p : string * Qc) :
  p ∈ dict_set k v d → p = (k, v) ∨ p ∈ d.
Proof.
  induction d as [|[k' v'] d IH]; simpl.
  - rewrite list_elem_of_singleton. tauto.
  - destruct (decide (k' = k)) as [->|Hne]; rewrite !elem_of_cons.
    + tauto.
    + intros [->|Hin]; [tauto|]. destruct (IH Hin); tauto.
Qed.

Lemma score_arms_scores (acts : list string) :
  ∀ scores b,
    (1 ≤ total_steps b)%Z → (∀ a, a ∈ acts → (1 ≤ pulls b a)%Z) →
    (∀ p, p ∈ scores → p.2 = stored_score sqrt_log_ratio b p.1) →
    ∃ scores' b',
      score_arms sqrt_log_ratio acts scores b = (Ok scores', b')
      ∧ (∀ a, a ∈ scores'.*1 ↔ a ∈ scores.*1 ∨ a ∈ acts)
      ∧ (∀ p, p ∈ scores' → p.2 = stored_score sqrt_log_ratio b p.1).
Proof.
  induction acts as [|a acts IH]; intros scores b Ht Hp Hsc.
  - exists scores, b. split; [done|]. split; [|done].
    intros a. rewrite elem_of_nil. tauto.
  - cbn [score_arms]. unfold_monad. rewrite read_count_eq, read_q_eq.
    set (b1 := set_action_counts _ b).
    set (b2 := set_q_values _ b1).
    assert (same_view b b2) as [_ Hvc Hvt Hvp Hvq].
    { eapply same_view_trans; [apply same_view_stored_count|].
      apply same_view_stored_q. }
    change (total_steps b2) with (total_steps b).
    rewrite explore_term_defined; [|done|apply Hp, list_elem_of_here].
    simpl.
    assert (∀ x, stored_score sqrt_log_ratio b2 x = stored_score sqrt_log_ratio b x) as Hss.
    { intros x. unfold stored_score. by rewrite Hvq, Hvc, Hvt, Hvp. }
    destruct (IH (dict_set a (dd_val 0 (q_values b1) a
                   + c b2 * sqrt_log_ratio (total_steps b) (pulls b a)) scores) b2)
      as (scores' & b' & Hrun & Hkeys & Hvals).
    { by rewrite Hvt. }
    { intros a' Ha'. rewrite Hvp. by apply Hp, list_elem_of_further. }
    { intros p [->|Hin]%dict_set_entries.
      - simpl. rewrite Hss. unfold stored_score. by f_equal.
      - rewrite Hss. by apply Hsc. }
    exists scores', b'. split; [exact Hrun|]. split.
    + intros a'. rewrite Hkeys, dict_set_keys, elem_of_cons. tauto.
    + intros p Hin. rewrite <-Hss. by apply Hvals.
Qed.

Lemma ucb_phase_maximum (b : UCBBandit) (g : Rng) :
  actions b ≠ [] →
  (1 ≤ total_steps b)%Z → (∀ a, a ∈ actions b → (1 ≤ pulls b a)%Z) →
  ∃ arm b', ucb_phase sqrt_log_ratio (b, g) = (Ok arm, (b', advance g))
    ∧ arm ∈ actions b
    ∧ ∀ a, a ∈ actions b → stored_score sqrt_log_ratio b a ≤ stored_score sqrt_log_ratio b arm.
Proof.
  intros Hne Ht Hp. unfold ucb_phase, on_bandit, on_rng. unfold_monad. simpl.
  destruct (score_arms_scores (actions b) [] b Ht Hp)
    as (scores & b' & -> & Hkeys & Hvals).
  { intros p Hin. by apply elem_of_nil in Hin. }
  simpl.
  assert (scores.*2 ≠ []) as Hnonempty.
  { destruct (actions b) as [|a acts] eqn:E; [done|].
    assert (a ∈ scores.*1) as Ha by (apply Hkeys; right; apply list_elem_of_here).
    intros Hnil. apply fmap_nil_inv in Hnil. subst scores.
    by apply elem_of_nil in Ha. }
  destruct (py_max_nonempty _ Hnonempty) as [m Hm]. rewrite Hm. simpl.
  apply py_max_spec in Hm as [Hin Hmax].
  apply list_elem_of_fmap in Hin as ([k v] & Hmv & Hkv). simpl in Hmv.
  destruct (choice_defined
              (filter (λ item : string * Qc, item.2 = m) scores).*1 g)
    as (arm & -> & Harm).
  { intros Hnil. apply fmap_nil_inv in Hnil.
    assert ((k, v) ∈ filter (λ item : string * Qc, item.2 = m) scores) as Hf.
    { apply list_elem_of_filter. by split. }
    rewrite Hnil in Hf. by apply elem_of_nil in Hf. }
  exists arm, b'. split; [done|].
  apply list_elem_of_fmap in Harm as ([k' v'] & -> & Hk').
  apply list_elem_of_filter in Hk' as [Hv' Hk']. simpl in Hv'. subst v'.
  pose proof (Hvals _ Hk') as Hscore. simpl in Hscore.
  split.
  - assert (k' ∈ scores.*1) as Hk.
    { apply list_elem_of_fmap. by exists (k', m). }
    apply Hkeys in Hk as [Hk|Hk]; [by apply elem_of_nil in Hk | done].
  - intros a Ha. simpl. rewrite <-Hscore.
    assert (a ∈ scores.*1) as Hin by (apply Hkeys; by right).
    apply list_elem_of_fmap in Hin as ([a' va] & -> & Hava).
    rewrite <-(Hvals _ Hava). simpl. apply Hmax.
    apply list_elem_of_fmap. by exists (a', va).
Qed.
End scoring_maximum.

(** X9: once every arm has been pulled, [select_action] returns an arm of
    maximal UCB score [average + c * sqrt(ln(total_steps) / count)], the
    score being computed with the incremented [total_steps]. *)
Theorem select_action_maximises_score
    (sqrt_log_ratio : Z → Z → Qc)
    (b : ucb_selector.UCBBandit) (g : random.Rng) :
  ucb_selector.reachable sqrt_log_ratio b →
  bandit_facts.reaches_scoring b →
  ucb_selector.actions b ≠ [] →
  ∃ arm,
    (ucb_selector.select_action sqrt_log_ratio (b, g)).1 = Ok arm
    ∧ arm ∈ ucb_selector.actions b
    ∧ ∀ a, a ∈ ucb_selector.actions b →
        bandit_runs.ucb_score sqrt_log_ratio b a
        ≤ bandit_runs.ucb_score sqrt_log_ratio b arm.
Proof.
  intros Hreach Hscore Hne.
  destruct (reachable_counters_nonneg _ _ Hreach) as [Ht Hp].
  pose proof (proj1 (reaches_scoring_iff b) Hscore) as Hnz.
  rewrite Forall_forall in Hnz.
  destruct (ucb_phase_maximum sqrt_log_ratio (bandit_facts.stepped b) g)
    as (arm & b' & Hrun & Harm & Hmax).
  - exact Hne.
  - simpl. lia.
  - intros a Ha. specialize (Hnz a Ha). specialize (Hp a).
    change (ucb_selector.pulls (bandit_facts.stepped b) a)
      with (ucb_selector.pulls b a). lia.
  - exists arm. rewrite select_action_eq.
    rewrite (cold_start_none _ (bandit_facts.stepped b)).
    2:{ apply Forall_forall. exact Hnz. }
    rewrite Hrun. split; [done|]. split; [exact Harm|]. exact Hmax.
Qed.

Lemma select_action_maximises_score_witness :
  let b := (ucb_selector.update "cardio" (dec 5 10)
              (ucb_selector.update "strength" 1
                 (ucb_selector.init ["strength"; "cardio"] 2)).2).2 in
  let g := random.mkRng (λ _, 0) (λ n, n) 0 in
  (ucb_selector.reachable (λ _ _, 1) b ∧ bandit_facts.reaches_scoring b
   ∧ ucb_selector.actions b ≠ [])
  ∧ ∃ arm,
      (ucb_selector.select_action (λ _ _, 1) (b, g)).1 = Ok arm
      ∧ arm ∈ ucb_selector.actions b
      ∧ ∀ a, a ∈ ucb_selector.actions b →
          bandit_runs.ucb_score (λ _ _, 1) b a
          ≤ bandit_runs.ucb_score (λ _ _, 1) b arm.
Proof.
  intros b g.
  assert (ucb_selector.reachable (λ _ _, 1) b) as Hreach.
  { apply ucb_selector.reach_update, ucb_selector.reach_update,
      ucb_selector.reach_init. }
  assert (bandit_facts.reaches_scoring b) as Hscore by reflexivity.
  assert (ucb_selector.actions b ≠ []) as Hne by discriminate.
  split; [by repeat split|].
  exact (select_action_maximises_score (λ _ _, 1) b g Hreach Hscore Hne).
Defined.

(** X10: a bandit without arms cannot select: [select_action] raises the
    ValueError of [max()] on an empty sequence, after it has incremented
    [total_steps]; nothing else changes and no random draw is used. *)
Theorem select_action_no_arms
    (sqrt_log_ratio : Z → Z → Qc)
    (b : ucb_selector.UCBBandit) (g : random.Rng) :
  ucb_selector.actions b = [] →
  ucb_selector.select_action sqrt_log_ratio (b, g)
  = (Raise MaxEmptyError, (bandit_facts.stepped b, g)).
Proof.
  intros Hempty. rewrite select_action_eq, Hempty. simpl.
  unfold ucb_selector.ucb_phase, ucb_selector.on_bandit. unfold_monad. simpl.
  rewrite Hempty. simpl. done.
Qed.

Lemma select_action_no_arms_witness :
  ucb_selector.actions (ucb_selector.init [] 2) = []
  ∧ ucb_selector.select_action (λ _ _, 0)
      (ucb_selector.init [] 2, random.mkRng (λ _, 0) (λ n, n) 0)
    = (Raise MaxEmptyError,
       (bandit_facts.stepped (ucb_selector.init [] 2),
        random.mkRng (λ _, 0) (λ n, n) 0)).
Proof.
  split; [reflexivity|].
  apply (select_action_no_arms (λ _ _, 0) (ucb_selector.init [] 2)).
  reflexivity.
Defined.

Section selection_effects.
Import random ucb_selector bandit_facts.
Variable sqrt_log_ratio : Z → Z → Qc.

Lemma ucb_phase_draws (b : UCBBandit) (g : Rng) :
  (ucb_phase sqrt_log_ratio (b, g)).2.2 = g
  ∨ (ucb_phase sqrt_log_ratio (b, g)).2.2 = advance g.
Proof.
  unfold ucb_phase, on_bandit, on_rng. unfold_monad. simpl.
  destruct (score_arms _ _ _ _) as [[scores|e] b']; simpl; [|by left].
  destruct (py_max _); simpl; [|by left].
  unfold choice. destruct (_ !! _); simpl; [by right|by left].
Qed.
End selection_effects.

(** X11: whatever it returns or raises, [select_action] changes nothing a
    later read of the bandit can tell apart except [total_steps], which grows
    by exactly one (the dictionaries may have gained default entries), and it
    uses at most one random draw. *)
Theorem select_action_effects
    (sqrt_log_ratio : Z → Z → Qc)
    (b : ucb_selector.UCBBandit) (g : random.Rng) :
  bandit_facts.same_view (bandit_facts.stepped b)
    (ucb_selector.select_action sqrt_log_ratio (b, g)).2.1
  ∧ ucb_selector.total_steps
      (ucb_selector.select_action sqrt_log_ratio (b, g)).2.1
    = (ucb_selector.total_steps b + 1)%Z
  ∧ ((ucb_selector.select_action sqrt_log_ratio (b, g)).2.2 = g
     ∨ (ucb_selector.select_action sqrt_log_ratio (b, g)).2.2
       = random.advance g).
Proof.
  pose proof (select_action_view sqrt_log_ratio b g) as Hv.
  split; [exact Hv|]. split.
  - by rewrite (bandit_facts.view_total _ _ Hv).
  - rewrite select_action_eq.
    destruct (ucb_selector.cold_start _ _) as [[[a|]|e] b']; simpl;
      [by left| |by left].
    apply ucb_phase_draws.
Qed.

Section statistics.
Import ucb_selector bandit_facts.

Lemma collect_stats_spec (acts : list string) :
  ∀ (stats : gmap string ArmStats) (b : UCBBandit),
    ∃ stats' b',
      collect_stats acts stats b = (Ok stats', b')
      ∧ ∀ a, stats' !! a
             = if decide (a ∈ acts)
               then Some (mkArmStats (dd_val 0 (q_values b) a) (pulls b a))
               else stats !! a.
Proof.
  induction acts as [|x acts IH]; intros stats b.
  - exists stats, b. split; [done|]. intros a.
    destruct (decide _) as [Hin|]; [by apply elem_of_nil in Hin|done].
  - cbn [collect_stats]. unfold_monad. rewrite read_q_eq, read_count_eq.
    set (b1 := set_q_values _ b).
    set (b2 := set_action_counts _ b1).
    assert (same_view b b2) as [_ _ _ Hvp Hvq].
    { eapply same_view_trans; [apply same_view_stored_q|].
      apply same_view_stored_count. }
    destruct (IH (<[x := mkArmStats (dd_val 0 (q_values b) x) (pulls b1 x)]> stats) b2)
      as (stats' & b' & Hrun & Hlook).
    exists stats', b'. split; [exact Hrun|]. intros a.
    rewrite Hlook, Hvq, Hvp.
    destruct (decide (a ∈ acts)) as [Hin|Hnin].
    + rewrite decide_True; [done|]. by apply list_elem_of_further.
    + rewrite lookup_insert. destruct (decide (x = a)) as [->|Hne].
      * rewrite decide_True; [done|]. apply list_elem_of_here.
      * rewrite decide_False; [done|].
        intros [?|?]%elem_of_cons; congruence.
Qed.
End statistics.

(** X12: [get_statistics] returns, for exactly the arms of [self.actions],
    the average and count a read of the bandit sees (0.0 and 0 for an arm
    never updated); it changes nothing a later read can tell apart. *)
Theorem get_statistics_reports (b : ucb_selector.UCBBandit) :
  ∃ stats b',
    ucb_selector.get_statistics b = (Ok stats, b')
    ∧ bandit_facts.same_view b b'
    ∧ ∀ a, stats !! a
           = if decide (a ∈ ucb_selector.actions b)
             then Some (ucb_selector.mkArmStats
                          (dd_val 0 (ucb_selector.q_values b) a)
                          (ucb_selector.pulls b a))
             else None.
Proof.
  unfold ucb_selector.get_statistics. unfold_monad.
  pose proof (collect_stats_view (ucb_selector.actions b) ∅ b) as Hv.
  destruct (collect_stats_spec (ucb_selector.actions b) ∅ b)
    as (stats & b' & Hrun & Hlook).
  rewrite Hrun in *. exists stats, b'. split; [done|]. split; [exact Hv|].
  intros a. rewrite Hlook. by rewrite lookup_empty.
Qed.

Section cold_start_rounds.
Import random ucb_selector bandit_facts bandit_runs.
Variable sqrt_log_ratio : Z → Z → Qc.
Variable reward : string → Qc.

Lemma first_pull_average (old r : Qc) : old + (r - old) / Qc_of_Z (0 + 1) = r.
Proof.
  change (Qc_of_Z (0 + 1)) with (Qc_of_Z 1). rewrite Z2Qc_inj_1. field.
  apply Q_apart_0_1.
Qed.

(** While unpulled arms remain, a round takes the first of them. *)
Lemma pull_rounds_cold (post : list string) :
  ∀ (pre : list string) (b : UCBBandit) (g : Rng),
    actions b = pre ++ post → NoDup (pre ++ post) →
    Forall (λ a, pulls b a ≠ 0%Z) pre →
    Forall (λ a, pulls b a = 0%Z) post →
    ∃ b',
      pull_rounds sqrt_log_ratio reward (length post) (b, g)
      = (Ok post, (b', g))
      ∧ actions b' = actions b
      ∧ total_steps b' = (total_steps b + Z.of_nat (length post))%Z
      ∧ (∀ a, a ∈ post →
           pulls b' a = 1%Z ∧ dd_val 0 (q_values b') a = reward a)
      ∧ (∀ a, a ∉ post →
           pulls b' a = pulls b a
           ∧ dd_val 0 (q_values b') a = dd_val 0 (q_values b) a).
Proof.
  induction post as [|arm post IH]; intros pre b g Hacts Hnd Hpre Hpost.
  - exists b. simpl. rewrite Z.add_0_r.
    split; [done|]. split; [done|]. split; [done|]. split; [|done].
    intros a Ha. by apply elem_of_nil in Ha.
  - apply Forall_cons in Hpost as [Harm Hpost].
    apply NoDup_app in Hnd as (Hnd1 & Hdisj & Hnd2).
    apply NoDup_cons in Hnd2 as [Hnotin Hnd2].
    assert (arm ∉ pre) as Hnotpre.
    { intros Hin. apply (Hdisj arm Hin). apply list_elem_of_here. }
    cbn [pull_rounds length]. unfold_monad.
    rewrite select_action_eq, Hacts.
    rewrite (cold_start_first pre post arm (stepped b)) by done.
    unfold on_bandit. unfold_monad. cbn [fst snd].
    rewrite update_eq. cbv zeta.
    set (b1 := set_action_counts _ (stepped b)).
    assert (pulls b1 arm = 0%Z) as Hp1.
    { unfold pulls, b1. simpl. by rewrite dd_val_insert, decide_True. }
    rewrite Hp1, decide_False by done. cbn [fst snd].
    set (b2 := mkUCBBandit _ _ _ _ _).
    assert (∀ a, pulls b2 a = if decide (arm = a) then 1%Z else pulls b a)
      as Hp2.
    { intros a. unfold pulls, b2, b1. simpl. rewrite !dd_val_insert.
      by destruct (decide (arm = a)). }
    assert (∀ a, dd_val 0 (q_values b2) a
                 = if decide (arm = a) then reward arm
                   else dd_val 0 (q_values b) a) as Hq2.
    { intros a. unfold b2, b1. simpl. rewrite dd_val_insert.
      destruct (decide (arm = a)); [|done]. apply first_pull_average. }
    destruct (IH (pre ++ [arm]) b2 g) as (b' & Hrun & Hacts' & Hts & Hin & Hout).
    { simpl. by rewrite Hacts, <-app_assoc. }
    { rewrite <-app_assoc. simpl. apply NoDup_app. repeat split; try done.
      by apply NoDup_cons. }
    { apply Forall_app. split.
      - eapply Forall_impl; [exact Hpre|]. intros a Ha. simpl in Ha.
        rewrite Hp2. destruct (decide (arm = a)); done.
      - constructor; [|constructor]. rewrite Hp2. by rewrite decide_True. }
    { rewrite Forall_forall in Hpost. apply Forall_forall. intros a Ha.
      rewrite Hp2. rewrite decide_False; [by apply Hpost|]. by intros <-. }
    rewrite Hrun. cbn [fst snd]. exists b'.
    split; [done|]. split; [by rewrite Hacts'|]. split.
    { rewrite Hts. simpl. lia. }
    split.
    + intros a [->|Ha]%elem_of_cons; [|by apply Hin].
      destruct (Hout arm Hnotin) as [-> ->].
      by rewrite Hp2, Hq2, !decide_True.
    + intros a Ha. apply not_elem_of_cons in Ha as [Hne Ha].
      destruct (Hout a Ha) as [-> ->].
      by rewrite Hp2, Hq2, !decide_False.
Qed.
End cold_start_rounds.

(** X13: on a new bandit over distinct arms, the first [len(actions)] rounds
    of "select an arm, then update it with the observed reward" visit the
    arms once each, in declaration order, whatever the rewards and without
    any random draw; afterwards each arm has count 1 and average equal to its
    reward, and [total_steps] is the number of arms. *)
Theorem cold_start_visits_each_arm
    (sqrt_log_ratio : Z → Z → Qc) (reward : string → Qc)
    (arms : list string) (c : Qc) (g : random.Rng) :
  NoDup arms →
  ∃ b',
    bandit_runs.pull_rounds sqrt_log_ratio reward (length arms)
      (ucb_selector.init arms c, g)
    = (Ok arms, (b', g))
    ∧ ucb_selector.total_steps b' = Z.of_nat (length arms)
    ∧ ∀ a, a ∈ arms →
        ucb_selector.pulls b' a = 1%Z
        ∧ dd_val 0 (ucb_selector.q_values b') a = reward a.
Proof.
  intros Hnd.
  destruct (pull_rounds_cold sqrt_log_ratio reward arms []
              (ucb_selector.init arms c) g)
    as (b' & Hrun & _ & Hts & Hin & _); try done.
  - by apply Forall_forall.
  - exists b'. split; [exact Hrun|]. split; [|exact Hin].
    rewrite Hts. simpl. lia.
Qed.

Lemma cold_start_visits_each_arm_witness :
  NoDup ["strength"; "cardio"; "yoga"]%string
  ∧ ∃ b',
      bandit_runs.pull_rounds (λ _ _, 0) (λ _, dec 5 10) 3
        (ucb_selector.init ["strength"; "cardio"; "yoga"] 2,
         random.mkRng (λ _, 0) (λ n, n) 0)
      = (Ok ["strength"; "cardio"; "yoga"]%string,
         (b', random.mkRng (λ _, 0) (λ n, n) 0))
      ∧ ucb_selector.total_steps b' = 3%Z.
Proof.
  assert (NoDup ["strength"; "cardio"; "yoga"]%string) as Hnd.
  { repeat (apply NoDup_cons; split;
              [rewrite ?elem_of_cons, elem_of_nil;
               intros Hin; decompose [or] Hin;
               first [discriminate | contradiction]|]).
    apply NoDup_nil_2. }
  split; [exact Hnd|].
  destruct (cold_start_visits_each_arm (λ _ _, 0) (λ _, dec 5 10)
              ["strength"; "cardio"; "yoga"]%string 2
              (random.mkRng (λ _, 0) (λ n, n) 0) Hnd)
    as (b' & Hrun & Hts & _).
  exists b'. split; [exact Hrun | exact Hts].
Defined.

(** ** q_learner: selection, table growth, contraction *)


(** X15: when the draw of [random.random()] is below [epsilon], the agent
    explores: it returns [self.actions[k]] for the drawn index [k], uses two
    draws, and leaves the Q-table exactly as it was (no entry is
    materialised). *)
Theorem q_select_action_explores `{Countable State}
    (ag : q_learner.QLearningAgent State) (state : State) (g : random.Rng) :
  random.unit_draws g (random.cursor g) < q_learner.epsilon ag →
  q_learner.actions ag ≠ [] →
  ∃ a,
    q_learner.select_action state (ag, g)
    = (Ok a, (ag, random.advance (random.advance g)))
    ∧ q_learner.actions ag
        !! (random.index_draws g (S (random.cursor g))
            `mod` length (q_learner.actions ag))%nat = Some a.
Proof.
  intros Hlt Hne. rewrite q_select_action_eq, decide_True by done.
  unfold random.choice. simpl.
  destruct (lookup_lt_is_Some_2 (q_learner.actions ag)
              (random.index_draws g (S (random.cursor g))
               `mod` length (q_learner.actions ag))) as [a Ha].
  { apply Nat.mod_upper_bound. by destruct (q_learner.actions ag). }
  rewrite Ha. by exists a.
Qed.

Lemma q_select_action_explores_witness :
  let ag : q_learner.QLearningAgent Z :=
    q_learner.init ["add_strength"; "add_cardio"; "finalize"]%string
      (dec 1 10) (dec 9 10) 1 in
  let g := random.mkRng (λ _, dec 1 2) (λ n, n) 0 in
  (random.unit_draws g (random.cursor g) < q_learner.epsilon ag
   ∧ q_learner.actions ag ≠ [])
  ∧ ∃ a,
      q_learner.select_action 7%Z (ag, g)
      = (Ok a, (ag, random.advance (random.advance g)))
      ∧ q_learner.actions ag
          !! (random.index_draws g (S (random.cursor g))
              `mod` length (q_learner.actions ag))%nat = Some a.
Proof.
  intros ag g.
  assert (random.unit_draws g (random.cursor g) < q_learner.epsilon ag) as Hlt
    by reflexivity.
  assert (q_learner.actions ag ≠ []) as Hne by discriminate.
  split; [by split|].
  exact (q_select_action_explores ag 7%Z g Hlt Hne).
Defined.

Section table_growth.
Import q_learner q_facts.
Context `{Countable State}.
Implicit Types (ag : QLearningAgent State).

Lemma dom_materialize (state : State) (acts : list string)
    (d : gmap (State * string) Qc) :
  dom (materialize state acts d) = dom d ∪ row_keys state acts.
Proof.
  apply set_eq. intros key.
  rewrite elem_of_union, !elem_of_dom, materialize_lookup.
  unfold row_keys. rewrite elem_of_list_to_set.
  destruct (decide _) as [Hin|Hnin].
  - split; [by right|]. by eexists.
  - split; [by left|]. by intros [?|?].
Qed.

Lemma size_row_keys (state : State) (acts : list string) :
  (size (row_keys state acts) ≤ length acts)%nat.
Proof.
  unfold row_keys. induction acts as [|a acts IH].
  - by rewrite fmap_nil, list_to_set_nil, size_empty.
  - rewrite fmap_cons, list_to_set_cons.
    rewrite size_union_alt, size_singleton. simpl.
    assert (size (list_to_set ((λ a0, (state, a0)) <$> acts) ∖ {[(state, a)]}
                  : gset (State * string))
            ≤ size (list_to_set ((λ a0, (state, a0)) <$> acts)
                    : gset (State * string)))%nat.
    { apply subseteq_size. intros y Hy.
      apply elem_of_difference in Hy. tauto. }
    lia.
Qed.
End table_growth.

(** X16: [select_action] never changes the value any [(state, action)] pair
    reads as, nor the agent's action list and parameters; it can only add
    keys of the row it looked at (holding 0.0), so the table never loses an
    entry by selecting. *)
Theorem q_select_action_preserves_values `{Countable State}
    (ag : q_learner.QLearningAgent State) (state : State) (g : random.Rng) :
  let ag' := (q_learner.select_action state (ag, g)).2.1 in
  (∀ st a, q_learner.q_value ag' st a = q_learner.q_value ag st a)
  ∧ dom (q_learner.q ag) ⊆ dom (q_learner.q ag')
  ∧ dom (q_learner.q ag')
    ⊆ dom (q_learner.q ag) ∪ q_facts.row_keys state (q_learner.actions ag)
  ∧ q_learner.actions ag' = q_learner.actions ag
  ∧ q_learner.alpha ag' = q_learner.alpha ag
  ∧ q_learner.gamma ag' = q_learner.gamma ag
  ∧ q_learner.epsilon ag' = q_learner.epsilon ag.
Proof.
  cbv zeta. rewrite q_select_action_eq.
  assert (∀ r : Result string * random.Rng,
            (let '(r0, g') := r in (r0, (ag, g'))).2.1 = ag) as Hexplore.
  { by intros [? ?]. }
  assert (∀ (ag1 : q_learner.QLearningAgent State) (r : Result string * random.Rng),
            (let '(r0, g') := r in (r0, (ag1, g'))).2.1 = ag1) as Hproj.
  { by intros ? [? ?]. }
  destruct (decide _).
  - rewrite Hproj. repeat split; try done. set_solver.
  - cbv zeta.
    assert ((match py_max (q_learner.q_value ag state <$> q_learner.actions ag) with
             | Ok max_q =>
                 let '(r, g') :=
                   random.choice
                     (q_facts.maximisers ag state max_q (q_learner.actions ag))
                     (random.advance g) in
                 (r, (q_learner.set_q
                        (q_facts.materialize state (q_learner.actions ag)
                           (q_learner.q ag)) ag, g'))
             | Raise e =>
                 (Raise e,
                  (q_learner.set_q
                     (q_facts.materialize state (q_learner.actions ag)
                        (q_learner.q ag)) ag, random.advance g))
             end).2.1
            = q_learner.set_q
                (q_facts.materialize state (q_learner.actions ag)
                   (q_learner.q ag)) ag) as ->.
    { destruct (py_max _); [apply Hproj|done]. }
    simpl. split.
    { intros st a. unfold q_learner.q_value. simpl. apply dd_val_materialize. }
    rewrite dom_materialize. repeat split; try done; set_solver.
Qed.

(** X17: with a non-empty action list, [update(s, a, r, s')] leaves in the
    table exactly the old keys, the row of [s'] and the key [(s, a)]; so
    [get_q_table_size] never decreases and grows by at most
    [len(actions) + 1] per update. *)
Theorem q_update_table_growth `{Countable State}
    (ag : q_learner.QLearningAgent State)
    (s : State) (a : string) (r : Qc) (s' : State) :
  q_learner.actions ag ≠ [] →
  let ag' := (q_learner.update s a r s' ag).2 in
  dom (q_learner.q ag')
  = dom (q_learner.q ag) ∪ q_facts.row_keys s' (q_learner.actions ag)
    ∪ {[(s, a)]}
  ∧ (q_learner.get_q_table_size ag ≤ q_learner.get_q_table_size ag')%Z
  ∧ (q_learner.get_q_table_size ag'
     ≤ q_learner.get_q_table_size ag
       + Z.of_nat (length (q_learner.actions ag)) + 1)%Z.
Proof.
  intros Hne. cbv zeta. rewrite q_update_eq. cbv zeta.
  destruct (py_max_nonempty (q_learner.q_value ag s' <$> q_learner.actions ag))
    as [m ->].
  { intros Hnil. by apply fmap_nil_inv in Hnil. }
  simpl.
  assert (dom (<[(s, a) := q_learner.q_value ag s a
                  + q_learner.alpha ag
                    * (r + q_learner.gamma ag * m - q_learner.q_value ag s a)]>
                 (q_facts.materialize s' (q_learner.actions ag) (q_learner.q ag)))
          = dom (q_learner.q ag) ∪ q_facts.row_keys s' (q_learner.actions ag)
            ∪ {[(s, a)]}) as Hdom.
  { rewrite dom_insert_L, dom_materialize. set_solver. }
  split; [exact Hdom|].
  unfold q_learner.get_q_table_size. simpl.
  rewrite <-!size_dom, Hdom.
  pose proof (size_row_keys s' (q_learner.actions ag)) as Hrow.
  pose proof (size_union_alt
                (dom (q_learner.q ag) ∪ q_facts.row_keys s' (q_learner.actions ag))
                ({[(s, a)]} : gset (State * string))) as Hu1.
  pose proof (size_union_alt (dom (q_learner.q ag))
                (q_facts.row_keys s' (q_learner.actions ag))) as Hu2.
  assert (size (({[(s, a)]} : gset (State * string))
                ∖ (dom (q_learner.q ag)
                   ∪ q_facts.row_keys s' (q_learner.actions ag))) ≤ 1)%nat as H1.
  { etrans; [apply subseteq_size|].
    - intros y Hy. apply elem_of_difference in Hy as [Hy _]. exact Hy.
    - by rewrite size_singleton. }
  assert (size (q_facts.row_keys s' (q_learner.actions ag)
                ∖ dom (q_learner.q ag))
          ≤ size (q_facts.row_keys s' (q_learner.actions ag)))%nat as H2.
  { apply subseteq_size. intros y Hy.
    apply elem_of_difference in Hy as [Hy _]. exact Hy. }
  split; lia.
Qed.

Lemma q_update_table_growth_witness :
  let ag : q_learner.QLearningAgent Z :=
    q_learner.init ["add_cardio"; "finalize"]%string (dec 1 10) (dec 9 10) 0 in
  q_learner.actions ag ≠ []
  ∧ (q_learner.get_q_table_size ag
     ≤ q_learner.get_q_table_size
         (q_learner.update 0%Z "add_cardio" 1 1%Z ag).2)%Z
  ∧ (q_learner.get_q_table_size
       (q_learner.update 0%Z "add_cardio" 1 1%Z ag).2
     ≤ q_learner.get_q_table_size ag
       + Z.of_nat (length (q_learner.actions ag)) + 1)%Z.
Proof.
  intros ag.
  assert (q_learner.actions ag ≠ []) as Hne by discriminate.
  split; [exact Hne|].
  exact (proj2 (q_update_table_growth ag 0%Z "add_cardio" 1 1%Z Hne)).
Defined.

(** After one update of a new table: the row of the next state and the
    updated pair, three entries. *)
Example q_table_size_sample :
  q_learner.get_q_table_size
    (q_learner.update 0%Z "add_cardio" 1 1%Z
       (q_learner.init ["add_cardio"; "finalize"]%string
          (dec 1 10) (dec 9 10) 0 : q_learner.QLearningAgent Z)).2 = 3%Z.
Proof. reflexivity. Qed.



(** ** fitness_agents: the helper agents, the state encoder, the action map *)

(** X19: [get_intensity_recommendation] never recommends a higher tier.
    For one of the three known levels it returns the same level while fewer
    than 4 exercises are planned and the level one tier lower (not below
    beginner) from the fourth on; any other string is returned unchanged. *)
Theorem get_intensity_recommendation_lowers
    (fitness_level : string) (exercises_count : Z) :
  match buckets.fitness_rank fitness_level with
  | Some r =>
      buckets.fitness_rank
        (fitness_agents.IntensityAgent.get_intensity_recommendation
           fitness_level exercises_count)
      = Some (if decide (4 ≤ exercises_count)%Z then Nat.pred r else r)
  | None =>
      fitness_agents.IntensityAgent.get_intensity_recommendation
        fitness_level exercises_count = fitness_level
  end.
Proof.
  unfold fitness_agents.IntensityAgent.get_intensity_recommendation,
    buckets.fitness_rank.
  destruct (decide (fitness_level = "beginner"%string)) as [->|Hb].
  { destruct (decide (4 ≤ exercises_count)%Z); reflexivity. }
  destruct (decide (fitness_level = "intermediate"%string)) as [->|Hi].
  { destruct (decide (4 ≤ exercises_count)%Z); reflexivity. }
  destruct (decide (fitness_level = "advanced"%string)) as [->|Ha].
  { destruct (decide (4 ≤ exercises_count)%Z); reflexivity. }
  destruct (decide (4 ≤ exercises_count)%Z); [|done].
  rewrite lookup_insert_ne by done. rewrite lookup_insert_ne by done.
  by rewrite lookup_singleton_ne.
Qed.


(** The state of the empty plan in the sample scenario. *)
Example get_state_sample :
  fitness_agents.RLController._get_state [] [] sample.scenario
  = Ok (0%Z, "low", "plenty", "intermediate")%string.
Proof. reflexivity. Qed.

(** X21: every category [_map_action_to_category] yields is an arm of the
    bandit built over [WorkoutAgent.categories], and the action that maps to
    it is ["add_" + category], so the map is injective; [finalize] has no
    category. *)
Theorem map_action_to_category_range :
  (∀ action category,
     fitness_agents.RLController._map_action_to_category action = Some category →
     category ∈ fitness_agents.WorkoutAgent.get_available_categories
     ∧ action = ("add_" +:+ category)%string)
  ∧ fitness_agents.RLController._map_action_to_category "finalize" = None.
Proof.
  split; [|reflexivity].
  intros action category.
  unfold fitness_agents.RLController._map_action_to_category.
  intros E.
  apply lookup_insert_Some in E as [[<- <-]|[_ E]].
  { split; [|reflexivity]. apply list_elem_of_here. }
  apply lookup_insert_Some in E as [[<- <-]|[_ E]].
  { split; [|reflexivity]. apply list_elem_of_further, list_elem_of_here. }
  apply lookup_singleton_Some in E as [<- <-].
  split; [|reflexivity]. do 2 apply list_elem_of_further. apply list_elem_of_here.
Qed.

(** X25: [BaselineController.run_fixed_pipeline] raises (a KeyError) exactly
    when the scenario has no [fitness_level]; otherwise it plans three
    strength exercises at the user's own level, 45 minutes in all, whatever
    the user's goal, time or best category. *)
Theorem run_fixed_pipeline_plan (scenario : reward_calculator.Scenario) :
  match fitness_agents.BaselineController.run_fixed_pipeline scenario with
  | Ok plan =>
      ∃ level,
        reward_calculator.fitness_level scenario = Some level
        ∧ fitness_agents.BaselineController.plan_exercises plan
          = replicate 3
              (fitness_agents.IntensityAgent.adjust_intensity
                 (fitness_agents.WorkoutAgent.select_exercise "strength" level)
                 level)
        ∧ fitness_agents.BaselineController.total_time plan = 45%Z
        ∧ fitness_agents.BaselineController.method plan
          = "baseline_fixed"%string
  | Raise e =>
      e = KeyError ∧ reward_calculator.fitness_level scenario = None
  end.
Proof.
  unfold fitness_agents.BaselineController.run_fixed_pipeline.
  destruct (reward_calculator.fitness_level scenario) as [level|] eqn:E.
  - simpl. rewrite E. simpl. exists level. by repeat split.
  - simpl. rewrite E. simpl. by split.
Qed.

(** ** fitness_agents: what an episode does to the learners *)

Section episode_bandit.
Import random reward_calculator fitness_agents fitness_agents.RLController.
Import episode_facts episode_effects.
Variable scenario : Scenario.
Variable reward_fn : Scenario → string → Result Qc.

Lemma bandit_step_refl (b : ucb_selector.UCBBandit) : bandit_step b b 0.
Proof.
  split; [done|]. split; [done|]. split; [done|]. lia.
Qed.

Lemma bandit_step_trans (b1 b2 b3 : ucb_selector.UCBBandit) (n m : Z) :
  bandit_step b1 b2 n → bandit_step b2 b3 m → bandit_step b1 b3 (n + m).
Proof.
  intros (Ht1 & Ha1 & Hf1 & Hs1) (Ht2 & Ha2 & Hf2 & Hs2).
  split; [congruence|]. split; [congruence|]. split; [|lia].
  intros a Ha. destruct (Hf1 a Ha) as [? ?], (Hf2 a Ha) as [? ?].
  split; congruence.
Qed.

Lemma update_bandit_step (category : string) (r : Qc)
    (b b' : ucb_selector.UCBBandit) :
  category ∈ reachable_categories →
  ucb_selector.update category r b = (Ok tt, b') →
  bandit_step b b' 1.
Proof.
  intros Hcat. rewrite update_eq. cbv zeta.
  destruct (decide _); [done|]. intros [= <-].
  split; [done|]. split; [done|]. split.
  - intros a Ha. unfold ucb_selector.pulls. simpl. rewrite !dd_val_insert.
    rewrite !decide_False; [done| |]; by intros <-.
  - unfold reachable_pulls, ucb_selector.pulls. simpl. rewrite !dd_val_insert.
    unfold reachable_categories in Hcat.
    rewrite !elem_of_cons, elem_of_nil in Hcat.
    destruct Hcat as [->|[->|[->|[]]]];
      repeat first [rewrite decide_True by done
                   | rewrite decide_False by done];
      lia.
Qed.

Lemma branch_bandit (action : string) (l l2 : Locals) (w1 w2 : World)
    (step : Qc) :
  branch scenario reward_fn action l w1 = (Ok (step, l2), w2) →
  bandit_step (bandit w1) (bandit w2) (total_exercises l2 - total_exercises l).
Proof.
  unfold branch. destruct (decide (action = "finalize"%string)) as [->|Hne].
  - unfold m_lift. rewrite finalize_branch_eq.
    destruct (match exercises l with [] => _ | _ => _ end) as [r|e]; [|done].
    intros [= <- <- <-]. simpl. rewrite Z.sub_diag. apply bandit_step_refl.
  - rewrite add_branch_eq.
    destruct (truthy _) as [category|] eqn:Hcat.
    + destruct (getitem _) as [level|e]; [|done].
      destruct (reward_fn _ _) as [cr|e]; [|done].
      destruct (ucb_selector.update _ _ _) as [[[]|e] b'] eqn:Hupd; [|done].
      intros [= <- <- <-]. simpl.
      replace (total_exercises l + 1 - total_exercises l)%Z with 1%Z by lia.
      eapply update_bandit_step; [|exact Hupd].
      by eapply mapped_category_range.
    + intros [= <- <- <-]. rewrite Z.sub_diag. apply bandit_step_refl.
Qed.

Lemma loop_body_bandit (l l' : Locals) (w w' : World) :
  loop_body scenario reward_fn l w = (Ok l', w') →
  bandit_step (bandit w) (bandit w') (total_exercises l' - total_exercises l)
  ∧ q_learner.actions (q_agent w') = q_learner.actions (q_agent w).
Proof.
  intros Hbody. split; [|by apply (loop_body_step _ _ _ _ _ _ Hbody)].
  revert Hbody. rewrite loop_body_eq.
  destruct (q_learner.select_action _ _) as [[action|e] [ag1 g1]]; [|done].
  destruct (branch _ _ _ _ _) as [[[step l2]|e] w2] eqn:Hbr; [|done].
  apply branch_bandit in Hbr.
  destruct (_get_state _ _ _) as [ns|e]; [|done].
  destruct (q_learner.update _ _ _ _ _) as [[[]|e] ag3]; [|done].
  intros [= <- <-]. exact Hbr.
Qed.

Lemma episode_loop_bandit (fuel : nat) :
  ∀ (l l' : Locals) (w w' : World),
    episode_loop scenario reward_fn fuel l w = Some (Ok l', w') →
    bandit_step (bandit w) (bandit w')
      (total_exercises l' - total_exercises l)
    ∧ q_learner.actions (q_agent w') = q_learner.actions (q_agent w).
Proof.
  induction fuel as [|fuel IH]; intros l l' w w'; simpl.
  - destruct (loop_condition l); [done|]. intros [= <- <-].
    rewrite Z.sub_diag. split; [apply bandit_step_refl|done].
  - destruct (loop_condition l).
    2:{ intros [= <- <-]. rewrite Z.sub_diag.
        split; [apply bandit_step_refl|done]. }
    destruct (loop_body _ _ _ _) as [[l1|e] w1] eqn:Hbody; [|done].
    intros Hrun. apply loop_body_bandit in Hbody as [Hb1 Ha1].
    apply IH in Hrun as [Hb2 Ha2]. split; [|congruence].
    replace (total_exercises l' - total_exercises l)%Z
      with ((total_exercises l1 - total_exercises l)
            + (total_exercises l' - total_exercises l1))%Z by lia.
    by eapply bandit_step_trans.
Qed.
End episode_bandit.

Section episode_actions.
Import random reward_calculator fitness_agents fitness_agents.RLController.
Import episode_facts episode_effects.
Variable scenario : Scenario.
Variable reward_fn : Scenario → string → Result Qc.

(** An iteration that returns, by the action the agent selected. *)
Lemma loop_body_action (l l' : Locals) (w w' : World) :
  loop_body scenario reward_fn l w = (Ok l', w') →
  ∃ action,
    action ∈ q_learner.actions (q_agent w)
    ∧ ((action = "finalize"%string ∧ done l' = true
        ∧ total_exercises l' = total_exercises l)
       ∨ (action ≠ "finalize"%string
          ∧ is_Some (truthy (_map_action_to_category action))
          ∧ done l' = done l
          ∧ total_exercises l' = (total_exercises l + 1)%Z)
       ∨ (action ≠ "finalize"%string
          ∧ truthy (_map_action_to_category action) = None
          ∧ done l' = done l
          ∧ total_exercises l' = total_exercises l)).
Proof.
  rewrite loop_body_eq.
  destruct (q_learner.select_action _ _) as [[action|e] [ag1 g1]] eqn:Hsel;
    [|done].
  apply q_select_action_frame in Hsel as [_ Hin].
  specialize (Hin action eq_refl).
  intros Hrun. exists action. split; [exact Hin|]. revert Hrun.
  unfold branch. destruct (decide (action = "finalize"%string)) as [->|Hne].
  - unfold m_lift. rewrite finalize_branch_eq.
    destruct (match exercises l with [] => _ | _ => _ end) as [r|e]; [|done].
    destruct (_get_state _ _ _) as [ns|e]; [|done].
    destruct (q_learner.update _ _ _ _ _) as [[[]|e] ag3]; [|done].
    intros [= <- <-]. left. by repeat split.
  - rewrite add_branch_eq.
    destruct (truthy _) as [category|] eqn:Hcat.
    + destruct (getitem _) as [level|e]; [|done].
      destruct (reward_fn _ _) as [cr|e]; [|done].
      destruct (ucb_selector.update _ _ _) as [[[]|e] b']; [|done].
      destruct (_get_state _ _ _) as [ns|e]; [|done].
      destruct (q_learner.update _ _ _ _ _) as [[[]|e] ag3]; [|done].
      intros [= <- <-]. right. left. by repeat split.
    + destruct (_get_state _ _ _) as [ns|e]; [|done].
      destruct (q_learner.update _ _ _ _ _) as [[[]|e] ag3]; [|done].
      intros [= <- <-]. right. right. by repeat split.
Qed.

(** With undeclared actions only, the loop condition never turns false. *)
Lemma episode_loop_diverges (fuel : nat) :
  ∀ (l : Locals) (w : World),
    ready scenario reward_fn w → undeclared_actions_only w →
    loop_condition l = true →
    episode_loop scenario reward_fn fuel l w = None.
Proof.
  induction fuel as [|fuel IH]; intros l w Hready Hund Hcond; simpl;
    rewrite Hcond; [done|].
  destruct (loop_body_ready scenario reward_fn l w Hready)
    as (l' & w' & Hbody & Hready').
  rewrite Hbody.
  pose proof (loop_body_step _ _ _ _ _ _ Hbody) as [Hacts _].
  destruct (loop_body_action _ _ _ _ Hbody) as (action & Hin & Hcases).
  unfold undeclared_actions_only in Hund.
  pose proof (proj1 (Forall_forall _ _) Hund action Hin) as [Hnf Hnone].
  apply IH; [exact Hready'| |].
  - unfold undeclared_actions_only. by rewrite Hacts.
  - destruct Hcases as [(? & _)|[(_ & [c Hc] & _)|(_ & _ & Hd & Ht)]];
      [done|congruence|].
    unfold loop_condition in *. by rewrite Hd, Ht.
Qed.

(** With add actions only, the loop runs until the cap. *)
Lemma episode_loop_fills (fuel : nat) :
  ∀ (l : Locals) (w : World),
    ready scenario reward_fn w → add_actions_only w →
    done l = false → (total_exercises l ≤ max_exercises)%Z →
    (Z.to_nat (max_exercises - total_exercises l) ≤ fuel)%nat →
    ∃ l' w', episode_loop scenario reward_fn fuel l w = Some (Ok l', w')
             ∧ total_exercises l' = max_exercises.
Proof.
  induction fuel as [|fuel IH]; intros l w Hready Hadd Hdone Hle Hfuel.
  - exists l, w. split; [|lia]. apply episode_loop_exit.
    apply not_true_is_false. rewrite loop_condition_true. lia.
  - destruct (loop_condition l) eqn:Hcond.
    2:{ exists l, w. split; [by apply episode_loop_exit|].
        apply not_true_iff_false in Hcond.
        rewrite loop_condition_true in Hcond.
        destruct (decide (total_exercises l < max_exercises)%Z); [|lia].
        exfalso. by apply Hcond. }
    simpl. rewrite Hcond. apply loop_condition_true in Hcond as [_ Hlt].
    destruct (loop_body_ready scenario reward_fn l w Hready)
      as (l' & w' & Hbody & Hready').
    rewrite Hbody.
    pose proof (loop_body_step _ _ _ _ _ _ Hbody) as [Hacts _].
    destruct (loop_body_action _ _ _ _ Hbody) as (action & Hin & Hcases).
    unfold add_actions_only in Hadd.
    pose proof (proj1 (Forall_forall _ _) Hadd action Hin) as Hdecl.
    assert (action ≠ "finalize"%string
            ∧ truthy (_map_action_to_category action) ≠ None) as [Hnf Hsome].
    { rewrite !elem_of_cons, elem_of_nil in Hdecl.
      destruct Hdecl as [->|[->|[->|[]]]]; by split. }
    destruct Hcases as [(? & _)|[(_ & _ & Hd & Ht)|(_ & ? & _)]];
      [done| |done].
    apply IH; [exact Hready'| | | |].
    + unfold add_actions_only. by rewrite Hacts.
    + by rewrite Hd.
    + lia.
    + lia.
Qed.
End episode_actions.

(** X22: an episode never asks the bandit to select: in a run that returns
    [(total_reward, n)], the bandit's [total_steps] and arm list are
    unchanged, the statistics of every arm other than strength, cardio and
    flexibility are untouched, those three arms together gained exactly [n]
    pulls, and the Q-agent still has its action list. *)
Theorem run_episode_bandit_effect
    (scenario : reward_calculator.Scenario)
    (reward_fn : reward_calculator.Scenario → string → Result Qc)
    (fuel : nat) (w w' : fitness_agents.RLController.World)
    (total_reward : Qc) (n : Z) :
  fitness_agents.RLController.run_episode scenario reward_fn fuel w
    = Some (Ok (total_reward, n), w') →
  ucb_selector.total_steps (fitness_agents.RLController.bandit w')
  = ucb_selector.total_steps (fitness_agents.RLController.bandit w)
  ∧ ucb_selector.actions (fitness_agents.RLController.bandit w')
    = ucb_selector.actions (fitness_agents.RLController.bandit w)
  ∧ (∀ a, a ∉ episode_effects.reachable_categories →
       ucb_selector.pulls (fitness_agents.RLController.bandit w') a
       = ucb_selector.pulls (fitness_agents.RLController.bandit w) a
       ∧ dd_val 0 (ucb_selector.q_values (fitness_agents.RLController.bandit w')) a
         = dd_val 0 (ucb_selector.q_values (fitness_agents.RLController.bandit w)) a)
  ∧ episode_effects.reachable_pulls (fitness_agents.RLController.bandit w')
    = (episode_effects.reachable_pulls (fitness_agents.RLController.bandit w)
       + n)%Z
  ∧ q_learner.actions (fitness_agents.RLController.q_agent w')
    = q_learner.actions (fitness_agents.RLController.q_agent w).
Proof.
  unfold fitness_agents.RLController.run_episode.
  destruct (fitness_agents.RLController._get_state [] [] scenario)
    as [state|e]; [|done].
  destruct (fitness_agents.RLController.episode_loop _ _ _ _ _)
    as [[[l|e] w1]|] eqn:Hloop; [|done|done].
  intros [= <- <- <-].
  apply episode_loop_bandit in Hloop as [(Ht & Ha & Hf & Hs) Hq].
  simpl in Hs. rewrite Z.sub_0_r in Hs.
  split; [exact Ht|]. split; [exact Ha|]. split; [exact Hf|].
  split; [exact Hs | exact Hq].
Qed.

Lemma run_episode_bandit_effect_witness :
  ∃ total_reward w',
    fitness_agents.RLController.run_episode sample.scenario
      reward_calculator.compute_category_reward 10 episode_facts.fresh_world
    = Some (Ok (total_reward, 1%Z), w')
    ∧ ucb_selector.total_steps (fitness_agents.RLController.bandit w')
      = ucb_selector.total_steps
          (fitness_agents.RLController.bandit episode_facts.fresh_world)
    ∧ episode_effects.reachable_pulls (fitness_agents.RLController.bandit w')
      = (episode_effects.reachable_pulls
           (fitness_agents.RLController.bandit episode_facts.fresh_world)
         + 1)%Z.
Proof.
  assert (∀ out : option (Result (Qc * Z) * fitness_agents.RLController.World),
            match out with Some (Ok (_, n), _) => Some n | _ => None end
            = Some 1%Z →
            ∃ total_reward w', out = Some (Ok (total_reward, 1%Z), w'))
    as Hshape.
  { intros [[[[t n]|e] w']|] Hn; try discriminate Hn.
    injection Hn as ->. by exists t, w'. }
  destruct (Hshape
              (fitness_agents.RLController.run_episode sample.scenario
                 reward_calculator.compute_category_reward 10
                 episode_facts.fresh_world))
    as (total_reward & w' & E).
  { vm_compute. reflexivity. }
  exists total_reward, w'. split; [exact E|].
  destruct (run_episode_bandit_effect _ _ _ _ _ _ _ E) as (Ht & _ & _ & Hs & _).
  split; [exact Ht | exact Hs].
Defined.

Section ready_worlds.
Import episode_facts episode_effects.

Lemma sample_ready (w : fitness_agents.RLController.World) :
  q_learner.actions (fitness_agents.RLController.q_agent w) ≠ [] →
  (∀ a, (0 ≤ ucb_selector.pulls (fitness_agents.RLController.bandit w) a)%Z) →
  ready sample.scenario reward_calculator.compute_category_reward w.
Proof.
  intros Hne Hp. split; [by repeat split; eexists|]. split; [|by split].
  intros category _.
  by apply (compute_category_reward_total sample.scenario "strength").
Qed.
End ready_worlds.

(** X24: the step cap bounds only the exercises added.  If none of the
    Q-agent's actions is [finalize] or maps to a category, every iteration
    takes the invalid-action branch (reward -0.1, nothing added), the loop
    condition stays true and [run_episode] does not return: it is still
    running after any number of iterations. *)
Theorem run_episode_undeclared_actions_diverge
    (scenario : reward_calculator.Scenario)
    (reward_fn : reward_calculator.Scenario → string → Result Qc)
    (w : fitness_agents.RLController.World) (fuel : nat) :
  episode_facts.ready scenario reward_fn w →
  episode_effects.undeclared_actions_only w →
  fitness_agents.RLController.run_episode scenario reward_fn fuel w = None.
Proof.
  intros Hready Hund. unfold fitness_agents.RLController.run_episode.
  destruct (get_state_defined scenario [] [] (proj1 Hready)) as [state ->].
  by rewrite (episode_loop_diverges scenario reward_fn fuel _ w Hready Hund).
Qed.

Lemma run_episode_undeclared_actions_diverge_witness :
  (episode_facts.ready sample.scenario
     reward_calculator.compute_category_reward episode_effects.resting_world
   ∧ episode_effects.undeclared_actions_only episode_effects.resting_world)
  ∧ fitness_agents.RLController.run_episode sample.scenario
      reward_calculator.compute_category_reward 1000
      episode_effects.resting_world = None.
Proof.
  assert (episode_facts.ready sample.scenario
            reward_calculator.compute_category_reward
            episode_effects.resting_world) as Hready.
  { apply sample_ready; [discriminate|]. intros a. reflexivity. }
  assert (episode_effects.undeclared_actions_only episode_effects.resting_world)
    as Hund.
  { constructor; [|constructor]. split; [discriminate|reflexivity]. }
  split; [exact (conj Hready Hund)|].
  exact (run_episode_undeclared_actions_diverge _ _ _ 1000 Hready Hund).
Defined.

(** X26: [run_episode] encodes the initial state before anything else: if
    the scenario lacks [time_available] or [fitness_level] it raises a
    KeyError at once, with the bandit, the Q-table and the random generator
    untouched. *)
Theorem run_episode_missing_key
    (scenario : reward_calculator.Scenario)
    (reward_fn : reward_calculator.Scenario → string → Result Qc)
    (w : fitness_agents.RLController.World) (fuel : nat) :
  reward_calculator.time_available scenario = None
  ∨ reward_calculator.fitness_level scenario = None →
  fitness_agents.RLController.run_episode scenario reward_fn fuel w
  = Some (Raise KeyError, w).
Proof.
  intros Hmissing. unfold fitness_agents.RLController.run_episode,
    fitness_agents.RLController._get_state.
  destruct (reward_calculator.time_available scenario) as [t|]; simpl; [|done].
  destruct Hmissing as [Ht|Hf]; [discriminate Ht|]. by rewrite Hf.
Qed.

Lemma run_episode_missing_key_witness :
  (reward_calculator.time_available
     (reward_calculator.mkScenario None (Some (Qc_of_Z 30))
        (Some "cardio"%string) None None None) = None
   ∨ reward_calculator.fitness_level
       (reward_calculator.mkScenario None (Some (Qc_of_Z 30))
          (Some "cardio"%string) None None None) = None)
  ∧ fitness_agents.RLController.run_episode
      (reward_calculator.mkScenario None (Some (Qc_of_Z 30))
         (Some "cardio"%string) None None None)
      reward_calculator.compute_category_reward 5 episode_facts.fresh_world
    = Some (Raise KeyError, episode_facts.fresh_world).
Proof.
  split; [right; reflexivity|].
  apply run_episode_missing_key. right. reflexivity.
Defined.

(** X27: an agent whose actions are all [add_*] actions never finalizes: in
    a ready world the episode returns after exactly [max_exercises]
    additions, so the returned count is 6. *)
Theorem run_episode_add_only_fills_plan
    (scenario : reward_calculator.Scenario)
    (reward_fn : reward_calculator.Scenario → string → Result Qc)
    (w : fitness_agents.RLController.World) (fuel : nat) :
  episode_facts.ready scenario reward_fn w →
  episode_effects.add_actions_only w →
  (Z.to_nat fitness_agents.RLController.max_exercises ≤ fuel)%nat →
  ∃ total_reward w',
    fitness_agents.RLController.run_episode scenario reward_fn fuel w
    = Some (Ok (total_reward, fitness_agents.RLController.max_exercises), w').
Proof.
  intros Hready Hadd Hfuel. unfold fitness_agents.RLController.run_episode.
  destruct (get_state_defined scenario [] [] (proj1 Hready)) as [state ->].
  destruct (episode_loop_fills scenario reward_fn fuel
              (fitness_agents.RLController.initial_locals state) w)
    as (l' & w' & -> & Htotal); try done.
  exists (fitness_agents.RLController.total_reward l'), w'.
  by rewrite Htotal.
Qed.

Lemma run_episode_add_only_fills_plan_witness :
  (episode_facts.ready sample.scenario
     reward_calculator.compute_category_reward episode_effects.adding_world
   ∧ episode_effects.add_actions_only episode_effects.adding_world
   ∧ (Z.to_nat fitness_agents.RLController.max_exercises ≤ 6)%nat)
  ∧ ∃ total_reward w',
      fitness_agents.RLController.run_episode sample.scenario
        reward_calculator.compute_category_reward 6
        episode_effects.adding_world
      = Some (Ok (total_reward, 6%Z), w').
Proof.
  assert (episode_facts.ready sample.scenario
            reward_calculator.compute_category_reward
            episode_effects.adding_world) as Hready.
  { apply sample_ready; [discriminate|]. intros a. reflexivity. }
  assert (episode_effects.add_actions_only episode_effects.adding_world)
    as Hadd.
  { constructor; [|constructor; [|constructor]].
    - apply list_elem_of_further, list_elem_of_here.
    - apply list_elem_of_here. }
  assert (Z.to_nat fitness_agents.RLController.max_exercises ≤ 6)%nat as Hfuel.
  { vm_compute. lia. }
  split; [exact (conj Hready (conj Hadd Hfuel))|].
  exact (run_episode_add_only_fills_plan _ _ _ 6 Hready Hadd Hfuel).
Defined.

Section episode_plan.
Import random reward_calculator fitness_agents fitness_agents.RLController.
Import episode_facts episode_effects.
Variable scenario : Scenario.
Variable reward_fn : Scenario → string → Result Qc.

Lemma branch_plan (action : string) (l l2 : Locals) (w1 w2 : World)
    (step : Qc) :
  branch scenario reward_fn action l w1 = (Ok (step, l2), w2) →
  plan_ok scenario reward_fn l → plan_ok scenario reward_fn l2.
Proof.
  unfold branch. destruct (decide (action = "finalize"%string)) as [->|Hne].
  - unfold m_lift. rewrite finalize_branch_eq.
    destruct (match exercises l with [] => _ | _ => _ end) as [r|e]; [|done].
    by intros [= <- <- <-].
  - rewrite add_branch_eq.
    destruct (truthy _) as [category|] eqn:Hcat; [|by intros [= <- <- <-]].
    destruct (fitness_level scenario) as [level|] eqn:Hlevel; [|done].
    simpl.
    destruct (reward_fn _ _) as [cr|e] eqn:Hreward; [|done].
    destruct (ucb_selector.update _ _ _) as [[[]|e] b']; [|done].
    intros [= <- <- <-] [Hlen Hentries]. split; simpl.
    { rewrite !length_app, Hlen. done. }
    intros i e Hi.
    apply lookup_app_Some in Hi as [Hi|[Hge Hi]].
    + destruct (Hentries i e Hi) as (r & Hr & Hok).
      exists r. split; [|exact Hok]. by apply lookup_app_l_Some.
    + apply list_lookup_singleton_Some in Hi as [Hi <-].
      assert (i = length (exercises l)) as -> by lia.
      exists cr. split.
      * rewrite <-Hlen. rewrite lookup_app_r by lia.
        by rewrite Nat.sub_diag.
      * exists level. split; [done|]. split.
        { simpl. by eapply mapped_category_range. }
        split; [reflexivity|]. exact Hreward.
Qed.

Lemma loop_body_plan (l l' : Locals) (w w' : World) :
  loop_body scenario reward_fn l w = (Ok l', w') →
  plan_ok scenario reward_fn l → plan_ok scenario reward_fn l'.
Proof.
  rewrite loop_body_eq.
  destruct (q_learner.select_action _ _) as [[action|e] [ag1 g1]]; [|done].
  destruct (branch _ _ _ _ _) as [[[step l2]|e] w2] eqn:Hbr; [|done].
  destruct (_get_state _ _ _) as [ns|e]; [|done].
  destruct (q_learner.update _ _ _ _ _) as [[[]|e] ag3]; [|done].
  intros [= <- <-] Hok. by apply (branch_plan _ _ _ _ _ _ Hbr) in Hok.
Qed.

Lemma episode_loop_plan (fuel : nat) :
  ∀ (l l' : Locals) (w w' : World),
    episode_loop scenario reward_fn fuel l w = Some (Ok l', w') →
    plan_ok scenario reward_fn l → plan_ok scenario reward_fn l'.
Proof.
  induction fuel as [|fuel IH]; intros l l' w w'; simpl.
  - destruct (loop_condition l); [done|]. by intros [= <- <-].
  - destruct (loop_condition l); [|by intros [= <- <-]].
    destruct (loop_body _ _ _ _) as [[l1|e] w1] eqn:Hbody; [|done].
    intros Hrun Hok. apply (IH _ _ _ _ Hrun).
    by apply (loop_body_plan _ _ _ _ Hbody).
Qed.
End episode_plan.

(** X23: the plan an episode builds.  When the loop of [run_episode] ends
    normally, the plan and the list of rewards have the same length, and the
    [i]-th exercise is the one [WorkoutAgent.select_exercise] makes for one
    of strength, cardio, flexibility at the user's level, adjusted to the
    intensity recommended for [i] exercises already planned (so one tier
    lower from the fifth exercise on); its reward is
    [reward_fn(scenario, category)]. *)
Theorem episode_plan_entries
    (scenario : reward_calculator.Scenario)
    (reward_fn : reward_calculator.Scenario → string → Result Qc)
    (fuel : nat) (state : fitness_agents.RLController.State)
    (l : fitness_agents.RLController.Locals)
    (w w' : fitness_agents.RLController.World) :
  fitness_agents.RLController.episode_loop scenario reward_fn fuel
    (fitness_agents.RLController.initial_locals state) w = Some (Ok l, w') →
  length (fitness_agents.RLController.exercise_rewards l)
  = length (fitness_agents.RLController.exercises l)
  ∧ ∀ i e,
      fitness_agents.RLController.exercises l !! i = Some e →
      ∃ r, fitness_agents.RLController.exercise_rewards l !! i = Some r
           ∧ episode_effects.plan_entry_ok scenario reward_fn i e r.
Proof.
  intros Hrun.
  apply (episode_loop_plan scenario reward_fn fuel _ _ _ _ Hrun).
  split; [done|]. intros i e Hi. simpl in Hi. by destruct i.
Qed.

Lemma episode_plan_entries_witness :
  ∃ l w',
    fitness_agents.RLController.episode_loop sample.scenario
      reward_calculator.compute_category_reward 6
      (fitness_agents.RLController.initial_locals
         (0%Z, "low", "plenty", "intermediate")%string)
      episode_effects.adding_world = Some (Ok l, w')
    ∧ length (fitness_agents.RLController.exercise_rewards l)
      = length (fitness_agents.RLController.exercises l).
Proof.
  assert (∀ out : option (Result fitness_agents.RLController.Locals
                          * fitness_agents.RLController.World),
            match out with Some (Ok _, _) => true | _ => false end = true →
            ∃ l w', out = Some (Ok l, w')) as Hshape.
  { intros [[[l|e] w']|] Hn; try discriminate Hn. by exists l, w'. }
  destruct (Hshape
              (fitness_agents.RLController.episode_loop sample.scenario
                 reward_calculator.compute_category_reward 6
                 (fitness_agents.RLController.initial_locals
                    (0%Z, "low", "plenty", "intermediate")%string)
                 episode_effects.adding_world))
    as (l & w' & E).
  { vm_compute. reflexivity. }
  exists l, w'. split; [exact E|].
  exact (proj1 (episode_plan_entries _ _ _ _ _ _ _ E)).
Defined.
